(** * httpclient-lib-go: a shallow embedding of [Request], [HeaderLink] and
    [expBackoffCalc].

    Two versions of the package are embedded:
    - [Current] follows [src/httpclient.go];
    - [Legacy] follows the older copy of the same file ([src/unnamed/part_000]),
      which still carries the [userAgent] constant and the package-level
      [version] variable.

    The network is abstracted as a transport that yields, for its [k]-th
    call, either an error or a response; [http.NewRequest] is abstracted by a
    function of the verb and the URL (it never reads the body).
    The status classifiers [statusTooManyRequests] and [statusForbidden] and
    the builders [statusOK] and [statusNotFound] live in another file of the
    package, not in [src/]; they are modelled from the spec below. *)

From Stdlib Require Import Ascii String List ZArith Lia Bool Floats QArith.
Import ListNotations.
Open Scope nat_scope.
Open Scope string_scope.

(** ** Data model *)

(** [err.Error()]: an error is represented by its message. *)
Definition error := string.

(** [ResponseStatus{Text, Code}]. *)
Record ResponseStatus := mkStatus { Text : string; Code : Z }.

(** [http.Header]: header name to ordered list of values. *)
Definition header := list (string * list string).

(** [HTTPResponse{Body, Status, Headers}]; a Go [nil] slice or map is [None]. *)
Record HTTPResponse := mkHTTPResponse {
  Body : option (list Byte.byte);
  Status : ResponseStatus;
  Headers : option header
}.

(** The part of an [*http.Response] the code reads. *)
Record response := mkResponse {
  StatusCode : Z;
  StatusLine : string;   (* [resp.Status] *)
  RespHeader : header;
  RespBody : list Byte.byte
}.

(** Outcome of [client.Do(req)]. *)
Inductive send_result :=
| SendErr (e : error)
| SendOk (r : response).

(** The outgoing request: verb, URL and the sequence of [req.Header.Add]
    calls, in the order they were made. *)
Record request := mkRequest {
  Verb : string;
  URL : string;
  ReqHeader : list (string * string)
}.

(** Observable effects of one call: requests sent and backoff sleeps
    ([ESleepBackoff a] sleeps [expBackoffCalc a] seconds, [ESleepHint s]
    sleeps the [s] seconds read from the response). *)
Inductive event :=
| ESend (rq : request)
| ESleepBackoff (a : nat)
| ESleepHint (s : Z).

(** What a classifier reads from the retry-hint headers of a response. *)
Inductive hint :=
| NoHint
| HintSecs (s : Z)
| BadHint (e : error).

(** How the retry loop was left. *)
Inductive exit :=
| Returned (res : HTTPResponse * option error)
| Exhausted (last : option error)
| OutOfFuel.

Definition maxBackOffAttempts : nat := 8.

(** [headers["version"]] on a Go [map[string]string]: the empty string when
    the key is absent. *)
Fixpoint map_get (k : string) (m : list (string * string)) : string :=
  match m with
  | [] => ""
  | (k', v) :: m' => if String.eqb k k' then v else map_get k m'
  end.

(** The envelope returned on every fatal error path:
    [HTTPResponse{Body: nil, Status: {err.Error() + URL, -1}, Headers: nil}, err]. *)
Definition errEnvelope (e : error) (url : string) : HTTPResponse * option error :=
  (mkHTTPResponse None (mkStatus (e ++ url) (-1)) None, Some e).

(** The envelope returned after the loop: ["Invalid Status Code: " + URL]. *)
Definition invalidEnvelope (url : string) : HTTPResponse :=
  mkHTTPResponse None (mkStatus ("Invalid Status Code: " ++ url) (-1)) None.

Section Classifiers.

(** Retry hint of a response, as read by the classifiers. *)
Variable read_hint : response -> hint.

(** Modelled from the spec: [statusOK] and [statusNotFound] (not in [src/])
    drain the body and return [{body, {status-line, code}, headers}] with a
    nil error. *)
Definition statusOK (r : response) : HTTPResponse * option error :=
  (mkHTTPResponse (Some (RespBody r)) (mkStatus (StatusLine r) (StatusCode r))
     (Some (RespHeader r)), None).

Definition statusNotFound (r : response) : HTTPResponse * option error :=
  (mkHTTPResponse (Some (RespBody r)) (mkStatus (StatusLine r) (StatusCode r))
     (Some (RespHeader r)), None).

(** Modelled from the spec: [statusTooManyRequests] and [statusForbidden]
    (not in [src/]) sleep for the hinted duration, or for the exponential
    backoff of the current count when there is no hint, and return
    [attempts + 1]; the error is non-nil only when the hint cannot be read. *)
Definition classify (r : response) (attempts : nat)
  : nat * option error * list event :=
  match read_hint r with
  | NoHint => (S attempts, None, [ESleepBackoff attempts])
  | HintSecs s => (S attempts, None, [ESleepHint s])
  | BadHint e => (S attempts, Some e, [])
  end.

Definition statusTooManyRequests := classify.
Definition statusForbidden := classify.

End Classifiers.

(** Outcome of one iteration of the loop body: a [return] from inside the
    loop, or the next value of [expBackoffAttempts] and of the loop-scoped
    [err], with the effects of the iteration. *)
Inductive iter_result :=
| Stop (res : HTTPResponse * option error) (ev : list event)
| Next (attempts : nat) (err : option error) (ev : list event).

Module Current.

Section Loop.

(** [http.NewRequest(verb, URL, body)]: [Some e] when construction fails. *)
Variable new_request : string -> string -> option error.
(** Retry hint of a response, as read by the classifiers. *)
Variable read_hint : response -> hint.
(** [client.Do]: outcome of the [k]-th send. *)
Variable transport : nat -> send_result.

(** One pass through the body of the loop of [src/httpclient.go], at
    count [attempts] and for the [k]-th send. *)
Definition iteration (url verb : string) (headers : list (string * string))
  (attempts k : nat) : iter_result :=
  match new_request verb url with
  | Some e => Stop (errEnvelope e url) []
  | None =>
    (* [for k, v := range headers { req.Header.Add(k, v) }] *)
    let rq := mkRequest verb url headers in
    match transport k with
    | SendErr e => Stop (errEnvelope e url) [ESend rq]
    | SendOk r =>
      let c := StatusCode r in
      if (200 <=? c)%Z && (c <=? 299)%Z then Stop (statusOK r) [ESend rq]
      else if (c =? 404)%Z then Stop (statusNotFound r) [ESend rq]
      else
        let '(a1, e1, ev1) :=
          if (c =? 429)%Z then statusTooManyRequests read_hint r attempts
          else (attempts, None, []) in
        match e1 with
        | Some e => Stop (errEnvelope e url) (ESend rq :: ev1)
        | None =>
          let '(a2, e2, ev2) :=
            if (c =? 403)%Z then statusForbidden read_hint r a1 else (a1, e1, []) in
          match e2 with
          | Some e => Stop (errEnvelope e url) (ESend rq :: (ev1 ++ ev2)%list)
          | None =>
            (* [expBackoffAttempts += 1] *)
            Next (S a2) e2 (ESend rq :: (ev1 ++ ev2)%list)
          end
        end
    end
  end.

(** [for expBackoffAttempts < maxBackOffAttempts { ... }]; [k] counts the
    sends made so far, [err] is the loop-scoped [err] of the last
    iteration. *)
Fixpoint loop (fuel : nat) (url verb : string) (headers : list (string * string))
  (attempts k : nat) (err : option error) : exit * list event :=
  if Nat.ltb attempts maxBackOffAttempts then
    match fuel with
    | O => (OutOfFuel, [])
    | S fuel' =>
      match iteration url verb headers attempts k with
      | Stop res ev => (Returned res, ev)
      | Next a' e' ev =>
        let '(ex, tr) := loop fuel' url verb headers a' (S k) e' in (ex, (ev ++ tr)%list)
      end
    end
  else (Exhausted err, []).

(** [Request(URL, verb, headers, body)]. The outer [var err error] is
    shadowed by [req, err := ...] inside the loop, so the value returned
    after the loop is the outer one, never assigned. Each iteration raises
    the count by at least one, so [maxBackOffAttempts] iterations of fuel
    always suffice (lemma [loop_not_out_of_fuel]). *)
Definition Request (url verb : string) (headers : list (string * string))
  : (HTTPResponse * option error) * list event :=
  let err : option error := None in
  let '(ex, tr) := loop maxBackOffAttempts url verb headers 0 0 None in
  match ex with
  | Returned res => (res, tr)
  | Exhausted _ | OutOfFuel => ((invalidEnvelope url, err), tr)
  end.

End Loop.

End Current.

Module Legacy.

(** [const userAgent = "Golang_italia_backend_bot"]. *)
Definition userAgent : string := "Golang_italia_backend_bot".

(** Initial value of the package-level [var version = "0.0.1_local"]. *)
Definition version_init : string := "0.0.1_local".

(** The package-level [version] after
    [if headers["version"] != "" { version = headers["version"] }]. *)
Definition next_version (headers : list (string * string)) (version : string) : string :=
  if String.eqb (map_get "version" headers) "" then version
  else map_get "version" headers.

(** The headers the legacy loop adds to the request: the caller's, then
    [req.Header.Add("User-Agent", userAgent+"/"+version)]. *)
Definition with_user_agent (headers : list (string * string)) (version : string)
  : list (string * string) :=
  (headers ++ [("User-Agent", (userAgent ++ "/" ++ version)%string)])%list.

Section Loop.

Variable new_request : string -> string -> option error.
Variable read_hint : response -> hint.
Variable transport : nat -> send_result.

(** One pass through the loop body of [src/unnamed/part_000]; the
    package-level [version] is explicit state, read and written. This copy
    recognises only [200] and [201] as success and has no
    [expBackoffAttempts += 1]. *)
Definition iteration (url verb : string) (headers : list (string * string))
  (attempts k : nat) (version : string) : iter_result * string :=
  match new_request verb url with
  | Some e => (Stop (errEnvelope e url) [], version)
  | None =>
    (* [if headers["version"] != "" { version = headers["version"] }] *)
    let version' := next_version headers version in
    let rq := mkRequest verb url (with_user_agent headers version') in
    match transport k with
    | SendErr e => (Stop (errEnvelope e url) [ESend rq], version')
    | SendOk r =>
      let c := StatusCode r in
      if (c =? 200)%Z then (Stop (statusOK r) [ESend rq], version')
      else if (c =? 201)%Z then (Stop (statusOK r) [ESend rq], version')
      else if (c =? 404)%Z then (Stop (statusNotFound r) [ESend rq], version')
      else
        let '(a1, e1, ev1) :=
          if (c =? 429)%Z then statusTooManyRequests read_hint r attempts
          else (attempts, None, []) in
        match e1 with
        | Some e => (Stop (errEnvelope e url) (ESend rq :: ev1), version')
        | None =>
          let '(a2, e2, ev2) :=
            if (c =? 403)%Z then statusForbidden read_hint r a1 else (a1, e1, []) in
          match e2 with
          | Some e => (Stop (errEnvelope e url) (ESend rq :: (ev1 ++ ev2)%list), version')
          | None => (Next a2 e2 (ESend rq :: (ev1 ++ ev2)%list), version')
          end
        end
    end
  end.

(** The loop of [src/unnamed/part_000], which need not terminate: run for
    at most [fuel] iterations. *)
Fixpoint loop (fuel : nat) (url verb : string) (headers : list (string * string))
  (attempts k : nat) (err : option error) (version : string)
  : exit * list event * string :=
  if Nat.ltb attempts maxBackOffAttempts then
    match fuel with
    | O => (OutOfFuel, [], version)
    | S fuel' =>
      match iteration url verb headers attempts k version with
      | (Stop res ev, v) => (Returned res, ev, v)
      | (Next a' e' ev, v) =>
        let '(ex, tr, v') := loop fuel' url verb headers a' (S k) e' v in
        (ex, (ev ++ tr)%list, v')
      end
    end
  else (Exhausted err, [], version).

(** [Request] run for at most [fuel] iterations from the package state
    [version]: [None] when the loop has not finished within the fuel. The
    last component is the package-level [version] afterwards. *)
Definition Request (fuel : nat) (version url verb : string)
  (headers : list (string * string))
  : option (HTTPResponse * option error) * list event * string :=
  let err : option error := None in
  let '(ex, tr, v) := loop fuel url verb headers 0 0 None version in
  match ex with
  | Returned res => (Some res, tr, v)
  | Exhausted _ => (Some (invalidEnvelope url, err), tr, v)
  | OutOfFuel => (None, tr, v)
  end.

End Loop.

End Legacy.

(** ** [HeaderLink] and the [github.com/tomnomnom/linkheader] parser it
    calls (a third-party package, embedded from its [Parse] and
    [parseParam]). *)

Module LinkHeader.

(** [linkheader.Link] without the [Params] map, which [HeaderLink] never
    reads. *)
Record Link := mkLink { LinkURL : string; Rel : string }.

(** [strings.Split(s, sep)] for a one-byte separator. *)
Fixpoint split (sep : Ascii.ascii) (s : string) : list string :=
  match s with
  | EmptyString => [EmptyString]
  | String c s' =>
    let rest := split sep s' in
    if Ascii.eqb c sep then EmptyString :: rest
    else match rest with
         | [] => [String c EmptyString]
         | p :: ps => String c p :: ps
         end
  end.

Definition in_cutset (cut : list Ascii.ascii) (c : Ascii.ascii) : bool :=
  existsb (Ascii.eqb c) cut.

Fixpoint trim_left (cut : list Ascii.ascii) (s : list Ascii.ascii) : list Ascii.ascii :=
  match s with
  | [] => []
  | c :: s' => if in_cutset cut c then trim_left cut s' else s
  end.

(** [strings.Trim(s, cutset)]. *)
Definition trim (cut : list Ascii.ascii) (s : string) : string :=
  string_of_list_ascii
    (rev (trim_left cut (rev (trim_left cut (list_ascii_of_string s))))).

(** [strings.ToLower] on ASCII letters. *)
Definition lower (c : Ascii.ascii) : Ascii.ascii :=
  let n := Ascii.nat_of_ascii c in
  if (Nat.leb 65 n && Nat.leb n 90)%bool then Ascii.ascii_of_nat (n + 32) else c.

Definition to_lower (s : string) : string :=
  string_of_list_ascii (map lower (list_ascii_of_string s)).

(** Text before and after the first [sep]. *)
Fixpoint break_at (sep : Ascii.ascii) (s : string) : option (string * string) :=
  match s with
  | EmptyString => None
  | String c s' =>
    if Ascii.eqb c sep then Some (EmptyString, s')
    else match break_at sep s' with
         | Some (a, b) => Some (String c a, b)
         | None => None
         end
  end.

(** [parseParam]: [strings.SplitN(raw, "=", 2)], the value trimmed of
    double quotes. *)
Definition parseParam (raw : string) : string * string :=
  match break_at "=" raw with
  | None => (raw, "")
  | Some (k, v) => (k, trim ["034"%char] v)
  end.

(** The body of the loop over the [;]-separated pieces of one chunk. *)
Definition parse_piece (l : Link) (piece0 : string) : Link :=
  let piece := trim [" "%char] piece0 in
  match piece with
  | EmptyString => l
  | String c _ =>
    let closes :=
      match String.get (String.length piece - 1) piece with
      | Some c' => Ascii.eqb c' ">"
      | None => false
      end in
    if (Ascii.eqb c "<" && closes)%bool then mkLink (trim ["<"%char; ">"%char] piece) (Rel l)
    else
      let '(key, val) := parseParam piece in
      if String.eqb key "" then l
      else if String.eqb (to_lower key) "rel" then mkLink (LinkURL l) val
      else l
  end.

Definition parse_chunk (chunk : string) : Link :=
  fold_left parse_piece (split ";" chunk) (mkLink "" "").

(** [linkheader.Parse]: one link per [,]-separated chunk that has a URL. *)
Definition Parse (raw : string) : list Link :=
  filter (fun l => negb (String.eqb (LinkURL l) "")) (map parse_chunk (split "," raw)).

End LinkHeader.

(** The [for _, link := range parsedLinks] loop of [HeaderLink]. *)
Fixpoint first_rel (command : string) (links : list LinkHeader.Link) : string :=
  match links with
  | [] => ""
  | l :: ls => if String.eqb (LinkHeader.Rel l) command then LinkHeader.LinkURL l
               else first_rel command ls
  end.

(** [HeaderLink(linkHeader, command)]. *)
Definition HeaderLink (linkHeader command : string) : string :=
  first_rel command (LinkHeader.Parse linkHeader).

(** A double quote, as a one-character string. *)
Definition dq : string := String "034"%char EmptyString.

(** [<https://x/2>; rel="next", <https://x/1>; rel="prev"]. *)
Definition example_link : string :=
  "<https://x/2>; rel=" ++ dq ++ "next" ++ dq ++ ", <https://x/1>; rel=" ++ dq ++ "prev" ++ dq.

(** Header lists of the requests sent, in order. *)
Fixpoint headers_of_sends (tr : list event) : list (list (string * string)) :=
  match tr with
  | [] => []
  | ESend rq :: tr' => ReqHeader rq :: headers_of_sends tr'
  | _ :: tr' => headers_of_sends tr'
  end.

(** ** [expBackoffCalc] over IEEE binary64 *)

Open Scope float_scope.

(** [math.Pow(2, float64(n))] for [n >= 0]: Go computes it exactly as a
    power of two, and returns [+Inf] once it overflows; doubling in binary64
    does the same. *)
Fixpoint pow2 (n : nat) : float :=
  match n with
  | O => 1
  | S n' => 2 * pow2 n'
  end.

(** [expBackoffCalc(attempts) = (math.Pow(2, float64(attempts)) - 1) / 2]. *)
Definition expBackoffCalc (attempts : nat) : float :=
  (pow2 attempts - 1) / 2.

(** The exact rational value of a finite float (used to state exactness). *)
Definition float_to_Q (f : float) : option Q :=
  match Prim2SF f with
  | S754_zero _ => Some 0%Q
  | S754_finite s m e =>
      Some ((if s then (-1)%Q else 1%Q) * (Zpos m # 1) * Qpower (2 # 1) e)%Q
  | _ => None
  end.

(** [(2^a - 1) / 2] as a rational number. *)
Definition backoff_exact (a : nat) : Q := ((2 ^ Z.of_nat a - 1)%Z # 2).

(** [expBackoffCalc a] is exactly [(2^a - 1) / 2]. *)
Definition backoff_is_exact (a : nat) : bool :=
  match float_to_Q (expBackoffCalc a) with
  | Some q => Qeq_bool q (backoff_exact a)
  | None => false
  end.

Close Scope float_scope.

(** ** The result envelope and the error

    [envelope_ok transport url res]: a non-nil error comes with code [-1];
    any other code comes with a nil error and is the status code of a
    response the transport returned; code [-1] with a nil error is the
    envelope of exhausted attempts. *)
Definition envelope_ok (transport : nat -> send_result) (url : string)
  (res : HTTPResponse * option error) : Prop :=
  let '(h, er) := res in
  (er <> None -> Code (Status h) = (-1)%Z) /\
  (Code (Status h) <> (-1)%Z ->
     er = None /\ exists k r, transport k = SendOk r /\ Code (Status h) = StatusCode r) /\
  (Code (Status h) = (-1)%Z -> er = None -> h = invalidEnvelope url).

(** Number of requests sent in a trace. *)
Definition is_send (ev : event) : bool :=
  match ev with ESend _ => true | _ => false end.

Definition sends (tr : list event) : nat := length (filter is_send tr).

(** ** Concrete inputs *)

Definition resp_with (c : Z) (line : string) : response := mkResponse c line [] [].

Definition always (r : send_result) : nat -> send_result := fun _ => r.

(** [http.NewRequest] succeeding, and failing with a parse error. *)
Definition builds : string -> string -> option error := fun _ _ => None.
Definition bad_url : string -> string -> option error :=
  fun _ _ => Some "parse error: invalid URL escape ".

Definition no_hint : response -> hint := fun _ => NoHint.

Definition url_x : string := "https://api.github.com/repos".

Definition resp429 : response := resp_with 429 "429 Too Many Requests".
Definition resp500 : response := resp_with 500 "500 Internal Server Error".
Definition resp200 : response := resp_with 200 "200 OK".

(** A transport answering [a] to the first send and [b] afterwards. *)
Definition first_then (a b : send_result) : nat -> send_result :=
  fun k => if Nat.eqb k 0 then a else b.

(** * Properties *)

(** Case analysis of one pass through a loop body. *)
Ltac iter_cases :=
  repeat match goal with
  | H : context [match ?x with _ => _ end] |- _ => destruct x eqn:?
  | |- context [match ?x with _ => _ end] => destruct x eqn:?
  end.

(** Inverts equations between tuples left by [iter_cases]. *)
Ltac pairs_inv :=
  repeat match goal with
  | H : (_, _) = (_, _) |- _ => inversion H; subst; clear H
  end.

Section CurrentFacts.

Variable new_request : string -> string -> option error.
Variable read_hint : response -> hint.
Variable transport : nat -> send_result.

Abbreviation iteration := (Current.iteration new_request read_hint transport).
Abbreviation loop := (Current.loop new_request read_hint transport).

(** An iteration that does not return raises the count by one to three and
    leaves the loop-scoped [err] nil. *)
Lemma current_iteration_next url verb headers a k a' e ev :
  iteration url verb headers a k = Next a' e ev ->
  S a <= a' <= S (S (S a)) /\ e = None.
Proof.
  unfold Current.iteration, statusTooManyRequests, statusForbidden, classify.
  intros H; iter_cases; inversion H; subst; pairs_inv; split; (reflexivity || lia).
Qed.

(** The loop never runs out of fuel when fuel and count reach the bound. *)
Lemma current_loop_not_out_of_fuel fuel url verb headers a k e :
  maxBackOffAttempts <= a + fuel ->
  fst (loop fuel url verb headers a k e) <> OutOfFuel.
Proof.
  revert a k e; induction fuel as [|fuel IH]; intros a k e Hle; simpl;
    destruct (Nat.ltb a maxBackOffAttempts) eqn:Hlt; try discriminate.
  - apply Nat.ltb_lt in Hlt; lia.
  - destruct (iteration url verb headers a k) as [res ev|a' e' ev] eqn:Hit;
      [discriminate|].
    apply current_iteration_next in Hit as [Ha' _].
    specialize (IH a' (S k) e' ltac:(lia)).
    destruct (loop fuel url verb headers a' (S k) e'); exact IH.
Qed.

(** What an iteration returns: a non-nil error exactly with code [-1];
    otherwise the code of the response of this send. *)
Lemma current_iteration_stop url verb headers a k h er ev :
  iteration url verb headers a k = Stop (h, er) ev ->
  (er <> None <-> Code (Status h) = (-1)%Z) /\
  (Code (Status h) <> (-1)%Z ->
     er = None /\ exists r, transport k = SendOk r /\ Code (Status h) = StatusCode r).
Proof.
  unfold Current.iteration, statusTooManyRequests, statusForbidden, classify,
    statusOK, statusNotFound, errEnvelope.
  intros H; iter_cases; inversion H; subst; pairs_inv; clear H;
    repeat match goal with
    | H : (_ && _)%bool = true |- _ => apply andb_prop in H; destruct H
    | H : (_ <=? _)%Z = true |- _ => apply Z.leb_le in H
    | H : (_ =? _)%Z = true |- _ => apply Z.eqb_eq in H
    end; simpl;
    (split; [split; intro; first [congruence | lia]
            | intro Hc; first [exfalso; apply Hc; reflexivity
                              | split; [reflexivity | eexists; split; [first [eassumption | reflexivity] | reflexivity]]]]).
Qed.

(** Every exit of the loop started with a nil [err]: returned envelopes
    pair a non-nil error with code [-1], and exhaustion carries a nil
    [err]. *)
Lemma current_loop_result fuel url verb headers a k :
  match fst (loop fuel url verb headers a k None) with
  | Returned (h, er) =>
      (er <> None <-> Code (Status h) = (-1)%Z) /\
      (Code (Status h) <> (-1)%Z ->
         er = None /\ exists k' r, transport k' = SendOk r /\ Code (Status h) = StatusCode r)
  | Exhausted e' => e' = None
  | OutOfFuel => True
  end.
Proof.
  revert a k; induction fuel as [|fuel IH]; intros a k; simpl;
    destruct (Nat.ltb a maxBackOffAttempts); simpl; trivial.
  destruct (iteration url verb headers a k) as [[h er] ev|a' e' ev] eqn:Hit.
  - apply current_iteration_stop in Hit as [Hiff Hcode]; split; [exact Hiff|].
    intros Hc; destruct (Hcode Hc) as [Her [r [Hr Hcr]]]; split; [exact Her|].
    exists k, r; split; assumption.
  - pose proof (current_iteration_next _ _ _ _ _ _ _ _ Hit) as [_ ->].
    specialize (IH a' (S k)).
    destruct (loop fuel url verb headers a' (S k) None) as [ex tr]; exact IH.
Qed.

(** [Current.Request] always produces a well-formed envelope. *)
Lemma current_request_envelope url verb headers :
  envelope_ok transport url (fst (Current.Request new_request read_hint transport url verb headers)).
Proof.
  unfold Current.Request.
  pose proof (current_loop_result maxBackOffAttempts url verb headers 0 0) as H.
  destruct (loop maxBackOffAttempts url verb headers 0 0 None) as [ex tr]; simpl in *.
  destruct ex as [[h er]|e'|]; simpl.
  - destruct H as [Hiff Hcode]; split; [|split].
    + intros Hne; apply Hiff; exact Hne.
    + exact Hcode.
    + intros Hc Her; exfalso; apply Hiff in Hc; contradiction.
  - split; [|split]; [intros Hne; reflexivity | intros Hc; exfalso; apply Hc; reflexivity
                      | intros; reflexivity].
  - split; [|split]; [intros Hne; reflexivity | intros Hc; exfalso; apply Hc; reflexivity
                      | intros; reflexivity].
Qed.

End CurrentFacts.

Section LegacyFacts.

Variable new_request : string -> string -> option error.
Variable read_hint : response -> hint.
Variable transport : nat -> send_result.

Abbreviation literation := (Legacy.iteration new_request read_hint transport).
Abbreviation lloop := (Legacy.loop new_request read_hint transport).

(** In the legacy loop an iteration that does not return raises the count
    by at most one (only through a classifier), and leaves [err] nil. *)
Lemma legacy_iteration_next url verb headers a k v a' e ev v' :
  literation url verb headers a k v = (Next a' e ev, v') ->
  a <= a' <= S a /\ e = None.
Proof.
  unfold Legacy.iteration, statusTooManyRequests, statusForbidden, classify.
  intros H; iter_cases; inversion H; subst; pairs_inv; split; (reflexivity || lia).
Qed.

Lemma legacy_iteration_stop url verb headers a k v h er ev v' :
  literation url verb headers a k v = (Stop (h, er) ev, v') ->
  (er <> None <-> Code (Status h) = (-1)%Z) /\
  (Code (Status h) <> (-1)%Z ->
     er = None /\ exists r, transport k = SendOk r /\ Code (Status h) = StatusCode r).
Proof.
  unfold Legacy.iteration, statusTooManyRequests, statusForbidden, classify,
    statusOK, statusNotFound, errEnvelope.
  intros H; iter_cases; inversion H; subst; pairs_inv; try clear H;
    repeat match goal with
    | H : (_ =? _)%Z = true |- _ => apply Z.eqb_eq in H
    end; simpl;
    (split; [split; intro; first [congruence | lia]
            | intro Hc; first [exfalso; apply Hc; reflexivity
                              | split; [reflexivity | eexists; split;
                                        [first [eassumption | reflexivity] | reflexivity]]]]).
Qed.

Lemma legacy_loop_result fuel url verb headers a k v :
  match fst (fst (lloop fuel url verb headers a k None v)) with
  | Returned (h, er) =>
      (er <> None <-> Code (Status h) = (-1)%Z) /\
      (Code (Status h) <> (-1)%Z ->
         er = None /\ exists k' r, transport k' = SendOk r /\ Code (Status h) = StatusCode r)
  | Exhausted e' => e' = None
  | OutOfFuel => True
  end.
Proof.
  revert a k v; induction fuel as [|fuel IH]; intros a k v; simpl;
    destruct (Nat.ltb a maxBackOffAttempts); simpl; trivial.
  destruct (literation url verb headers a k v) as [[[h er] ev|a' e' ev] v'] eqn:Hit.
  - apply legacy_iteration_stop in Hit as [Hiff Hcode]; split; [exact Hiff|].
    intros Hc; destruct (Hcode Hc) as [Her [r [Hr Hcr]]]; split; [exact Her|].
    exists k, r; split; assumption.
  - pose proof (legacy_iteration_next _ _ _ _ _ _ _ _ _ _ Hit) as [_ ->].
    specialize (IH a' (S k) v').
    destruct (lloop fuel url verb headers a' (S k) None v') as [[ex tr] v'']; exact IH.
Qed.

(** Every result [Legacy.Request] produces is a well-formed envelope. *)
Lemma legacy_request_envelope fuel version url verb headers res :
  fst (fst (Legacy.Request new_request read_hint transport fuel version url verb headers))
    = Some res ->
  envelope_ok transport url res.
Proof.
  unfold Legacy.Request.
  pose proof (legacy_loop_result fuel url verb headers 0 0 version) as H.
  destruct (lloop fuel url verb headers 0 0 None version) as [[ex tr] v]; simpl in *.
  destruct ex as [[h er]|e'|]; simpl; intros Hres; inversion Hres; subst; simpl.
  - destruct H as [Hiff Hcode]; split; [|split].
    + intros Hne; apply Hiff; exact Hne.
    + exact Hcode.
    + intros Hc Her; exfalso; apply Hiff in Hc; contradiction.
  - split; [|split]; [intros Hne; reflexivity | intros Hc; exfalso; apply Hc; reflexivity
                      | intros; reflexivity].
Qed.

End LegacyFacts.

Lemma sends_app (t1 t2 : list event) : sends (t1 ++ t2) = sends t1 + sends t2.
Proof. unfold sends; rewrite filter_app, length_app; reflexivity. Qed.

(** A status code none of the branches of [src/httpclient.go] handles. *)
Definition unclassified (c : Z) : Prop :=
  ~ (200 <= c <= 299)%Z /\ c <> 404%Z /\ c <> 429%Z /\ c <> 403%Z.

Section RetryRuns.

Variable new_request : string -> string -> option error.
Variable read_hint : response -> hint.
Variable transport : nat -> send_result.
Variables url verb : string.
Variable headers : list (string * string).
Hypothesis Hbuild : new_request verb url = None.

(** Every response is a 429 or a 403 whose retry hint can be read. *)
Definition all_retry : Prop :=
  forall k, exists r, transport k = SendOk r /\
    (StatusCode r = 429%Z \/ StatusCode r = 403%Z) /\ (forall e, read_hint r <> BadHint e).

Lemma current_iteration_retry a k :
  all_retry ->
  exists ev, Current.iteration new_request read_hint transport url verb headers a k
             = Next (S (S a)) None ev /\ sends ev = 1.
Proof.
  intros Hall; destruct (Hall k) as [r [Hr [Hc Hh]]].
  unfold Current.iteration, statusTooManyRequests, statusForbidden, classify.
  rewrite Hbuild, Hr.
  destruct Hc as [Hc|Hc]; rewrite Hc; simpl;
    destruct (read_hint r) eqn:Hrh; try (exfalso; eapply Hh; reflexivity);
    eexists; split; reflexivity.
Qed.

Lemma current_loop_retry j fuel a k :
  all_retry -> j <= fuel -> a + 2 * j = maxBackOffAttempts ->
  fst (Current.loop new_request read_hint transport fuel url verb headers a k None)
    = Exhausted None /\
  sends (snd (Current.loop new_request read_hint transport fuel url verb headers a k None))
    = j.
Proof.
  intros Hall; revert fuel a k; induction j as [|j IH]; intros fuel a k Hj Ha.
  - destruct fuel; simpl; unfold maxBackOffAttempts in *;
      replace (Nat.ltb a 8) with false by (symmetry; apply Nat.ltb_ge; lia); auto.
  - destruct fuel as [|fuel]; [lia|]; simpl.
    replace (Nat.ltb a maxBackOffAttempts) with true
      by (symmetry; apply Nat.ltb_lt; unfold maxBackOffAttempts in *; lia).
    destruct (current_iteration_retry a k Hall) as [ev [Hit Hev]]; rewrite Hit.
    specialize (IH fuel (S (S a)) (S k) ltac:(lia) ltac:(lia)).
    destruct (Current.loop new_request read_hint transport fuel url verb headers
                (S (S a)) (S k) None) as [ex tr]; simpl in *.
    destruct IH as [-> Htr]; split; [reflexivity|].
    rewrite sends_app, Hev, Htr; lia.
Qed.

Lemma legacy_iteration_retry a k v :
  all_retry ->
  exists ev v', Legacy.iteration new_request read_hint transport url verb headers a k v
             = (Next (S a) None ev, v') /\ sends ev = 1.
Proof.
  intros Hall; destruct (Hall k) as [r [Hr [Hc Hh]]].
  unfold Legacy.iteration, statusTooManyRequests, statusForbidden, classify.
  rewrite Hbuild, Hr.
  destruct Hc as [Hc|Hc]; rewrite Hc; simpl;
    destruct (read_hint r) eqn:Hrh; try (exfalso; eapply Hh; reflexivity);
    do 2 eexists; split; reflexivity.
Qed.

Lemma legacy_loop_retry j fuel a k v :
  all_retry -> j <= fuel -> a + j = maxBackOffAttempts ->
  fst (fst (Legacy.loop new_request read_hint transport fuel url verb headers a k None v))
    = Exhausted None /\
  sends (snd (fst (Legacy.loop new_request read_hint transport fuel url verb headers a k None v)))
    = j.
Proof.
  intros Hall; revert fuel a k v; induction j as [|j IH]; intros fuel a k v Hj Ha.
  - destruct fuel; simpl; unfold maxBackOffAttempts in *;
      replace (Nat.ltb a 8) with false by (symmetry; apply Nat.ltb_ge; lia); auto.
  - destruct fuel as [|fuel]; [lia|]; simpl.
    replace (Nat.ltb a maxBackOffAttempts) with true
      by (symmetry; apply Nat.ltb_lt; unfold maxBackOffAttempts in *; lia).
    destruct (legacy_iteration_retry a k v Hall) as [ev [v' [Hit Hev]]]; rewrite Hit.
    specialize (IH fuel (S a) (S k) v' ltac:(lia) ltac:(lia)).
    destruct (Legacy.loop new_request read_hint transport fuel url verb headers
                (S a) (S k) None v') as [[ex tr] v'']; simpl in *.
    destruct IH as [-> Htr]; split; [reflexivity|].
    rewrite sends_app, Hev, Htr; lia.
Qed.

End RetryRuns.

Lemma always_429_all_retry : all_retry no_hint (always (SendOk resp429)).
Proof.
  intros k; exists resp429; split; [reflexivity|]; split; [left; reflexivity|].
  intros e H; discriminate H.
Qed.

(** ** C1 *)

(** C1 (counterexample): when the transport answers 429 to each of the
    8 sends of the legacy [Request], the call returns code [-1] with a nil
    error, not a non-nil one; the URL is only in the status text. *)
Lemma Request_retry_exhausted_nil_error :
  let '(res, tr, _) :=
    Legacy.Request builds no_hint (always (SendOk resp429)) maxBackOffAttempts
      Legacy.version_init url_x "GET" [] in
  res = Some (mkHTTPResponse None (mkStatus ("Invalid Status Code: " ++ url_x) (-1)) None,
              None) /\ sends tr = 8.
Proof. vm_compute. split; reflexivity. Qed.

(** C1 (amended): when every response is a 429 or a 403 whose retry hint
    can be read, both versions of [Request] end once the attempt count
    reaches 8 and return the envelope
    [{nil, {"Invalid Status Code: " + URL, -1}, nil}] with a nil error: the
    URL is in the status text, the error is nil. The legacy version gets
    there after exactly 8 such responses. *)
Theorem Request_retry_exhausted new_request read_hint transport url verb headers :
  new_request verb url = None ->
  all_retry read_hint transport ->
  fst (Current.Request new_request read_hint transport url verb headers)
    = (invalidEnvelope url, None) /\
  (forall version,
     fst (fst (Legacy.Request new_request read_hint transport maxBackOffAttempts
                 version url verb headers)) = Some (invalidEnvelope url, None) /\
     sends (snd (fst (Legacy.Request new_request read_hint transport maxBackOffAttempts
                        version url verb headers))) = 8).
Proof.
  intros Hb Hall.
  pose proof (current_loop_retry new_request read_hint transport url verb headers Hb
                4 maxBackOffAttempts 0 0 Hall ltac:(unfold maxBackOffAttempts; lia)
                ltac:(reflexivity)) as [Hex _].
  unfold Current.Request.
  destruct (Current.loop new_request read_hint transport maxBackOffAttempts url verb
              headers 0 0 None) as [ex tr]; simpl in *; subst ex.
  split; [reflexivity|].
  intros version.
  pose proof (legacy_loop_retry new_request read_hint transport url verb headers Hb
                8 maxBackOffAttempts 0 0 version Hall ltac:(unfold maxBackOffAttempts; lia)
                ltac:(reflexivity)) as [Hex' Hs'].
  unfold Legacy.Request.
  destruct (Legacy.loop new_request read_hint transport maxBackOffAttempts url verb
              headers 0 0 None version) as [[ex tr'] v]; simpl in *; subst ex.
  split; [reflexivity | exact Hs'].
Qed.

Lemma Request_retry_exhausted_witness :
  builds "GET" url_x = None /\ all_retry no_hint (always (SendOk resp429)) /\
  fst (Current.Request builds no_hint (always (SendOk resp429)) url_x "GET" [])
    = (invalidEnvelope url_x, None).
Proof.
  assert (Hb : builds "GET" url_x = None) by reflexivity.
  split; [exact Hb | split; [exact always_429_all_retry |]].
  apply (Request_retry_exhausted builds no_hint (always (SendOk resp429)) url_x "GET" []
           Hb always_429_all_retry).
Defined.

(** ** C2 *)

(** C2 (counterexample): code [-1] does not imply a non-nil error: the
    exhausted envelope carries a nil one. *)
Lemma Request_exhausted_code_without_error :
  let '((h, er), _) :=
    Current.Request builds no_hint (always (SendOk resp500)) url_x "GET" [] in
  Code (Status h) = (-1)%Z /\ er = None.
Proof. vm_compute. split; reflexivity. Qed.

(** C2 (amended): in both versions, a non-nil error always comes with code
    [-1]; any other code comes with a nil error and is the status code of a
    response the transport returned; code [-1] with a nil error is exactly
    the exhausted-attempts envelope ["Invalid Status Code: " + URL]. *)
Theorem Request_envelope_invariant new_request read_hint transport url verb headers :
  envelope_ok transport url
    (fst (Current.Request new_request read_hint transport url verb headers)) /\
  (forall fuel version,
     match fst (fst (Legacy.Request new_request read_hint transport fuel version url verb
                       headers)) with
     | Some res => envelope_ok transport url res
     | None => True
     end).
Proof.
  split; [apply current_request_envelope|].
  intros fuel version.
  destruct (fst (fst (Legacy.Request new_request read_hint transport fuel version url verb
                        headers))) as [res|] eqn:H; [|exact I].
  eapply legacy_request_envelope; exact H.
Qed.

(** Turns the boolean comparisons on [Z] in the hypotheses into
    propositions. *)
Ltac zbool :=
  repeat match goal with
  | H : (_ && _)%bool = true |- _ => apply andb_prop in H; destruct H
  | H : (_ && _)%bool = false |- _ => apply andb_false_iff in H
  | H : (_ <=? _)%Z = true |- _ => apply Z.leb_le in H
  | H : (_ <=? _)%Z = false |- _ => apply Z.leb_gt in H
  | H : (_ =? _)%Z = true |- _ => apply Z.eqb_eq in H
  | H : (_ =? _)%Z = false |- _ => apply Z.eqb_neq in H
  end.

Section Unclassified.

Variable new_request : string -> string -> option error.
Variable read_hint : response -> hint.
Variable transport : nat -> send_result.
Variables url verb : string.
Variable headers : list (string * string).
Hypothesis Hbuild : new_request verb url = None.

(** Every response carries a status code no branch handles. *)
Definition all_unclassified : Prop :=
  forall k, exists r, transport k = SendOk r /\ unclassified (StatusCode r).

Lemma current_iteration_unclassified a k :
  all_unclassified ->
  Current.iteration new_request read_hint transport url verb headers a k
    = Next (S a) None [ESend (mkRequest verb url headers)].
Proof.
  intros Hall; destruct (Hall k) as [r [Hr [H1 [H2 [H3 H4]]]]].
  unfold Current.iteration, statusTooManyRequests, statusForbidden, classify.
  rewrite Hbuild, Hr; simpl.
  destruct ((200 <=? StatusCode r)%Z && (StatusCode r <=? 299)%Z) eqn:E1;
    [zbool; exfalso; lia|].
  destruct (StatusCode r =? 404)%Z eqn:E2; [zbool; contradiction|].
  destruct (StatusCode r =? 429)%Z eqn:E3; [zbool; contradiction|].
  destruct (StatusCode r =? 403)%Z eqn:E4; [zbool; contradiction|].
  reflexivity.
Qed.

Lemma current_loop_unclassified j fuel a k :
  all_unclassified -> j <= fuel -> a + j = maxBackOffAttempts ->
  Current.loop new_request read_hint transport fuel url verb headers a k None
    = (Exhausted None, repeat (ESend (mkRequest verb url headers)) j).
Proof.
  intros Hall; revert fuel a k; induction j as [|j IH]; intros fuel a k Hj Ha.
  - destruct fuel; simpl; unfold maxBackOffAttempts in *;
      replace (Nat.ltb a 8) with false by (symmetry; apply Nat.ltb_ge; lia); auto.
  - destruct fuel as [|fuel]; [lia|]; simpl.
    replace (Nat.ltb a maxBackOffAttempts) with true
      by (symmetry; apply Nat.ltb_lt; unfold maxBackOffAttempts in *; lia).
    rewrite (current_iteration_unclassified a k Hall).
    rewrite (IH fuel (S a) (S k) ltac:(lia) ltac:(lia)); reflexivity.
Qed.

Lemma legacy_iteration_unclassified a k v :
  all_unclassified ->
  exists ev v', Legacy.iteration new_request read_hint transport url verb headers a k v
                = (Next a None ev, v').
Proof.
  intros Hall; destruct (Hall k) as [r [Hr [H1 [H2 [H3 H4]]]]].
  unfold Legacy.iteration, statusTooManyRequests, statusForbidden, classify.
  rewrite Hbuild, Hr; simpl.
  destruct (StatusCode r =? 200)%Z eqn:E0; [zbool; exfalso; lia|].
  destruct (StatusCode r =? 201)%Z eqn:E1; [zbool; exfalso; lia|].
  destruct (StatusCode r =? 404)%Z eqn:E2; [zbool; contradiction|].
  destruct (StatusCode r =? 429)%Z eqn:E3; [zbool; contradiction|].
  destruct (StatusCode r =? 403)%Z eqn:E4; [zbool; contradiction|].
  do 2 eexists; reflexivity.
Qed.

(** The legacy loop never leaves: the count stays where it is. *)
Lemma legacy_loop_unclassified fuel a k v :
  all_unclassified -> a < maxBackOffAttempts ->
  fst (fst (Legacy.loop new_request read_hint transport fuel url verb headers a k None v))
    = OutOfFuel.
Proof.
  intros Hall; revert a k v; induction fuel as [|fuel IH]; intros a k v Ha; simpl;
    replace (Nat.ltb a maxBackOffAttempts) with true by (symmetry; apply Nat.ltb_lt; lia);
    [reflexivity|].
  destruct (legacy_iteration_unclassified a k v Hall) as [ev [v' Hit]]; rewrite Hit.
  specialize (IH a (S k) v' Ha).
  destruct (Legacy.loop new_request read_hint transport fuel url verb headers a (S k) None v')
    as [[ex tr] v'']; simpl in *; exact IH.
Qed.

End Unclassified.

Lemma always_500_unclassified : all_unclassified (always (SendOk resp500)).
Proof.
  intros k; exists resp500; split; [reflexivity|].
  unfold unclassified; simpl; lia.
Qed.

(** ** C3 *)

(** C3: on responses whose status no branch handles, the current [Request]
    spends exactly one attempt per iteration with no sleep and returns the
    exhausted envelope after 8 sends; the legacy [Request] never finishes,
    whatever the number of iterations it is given, because its loop has no
    [expBackoffAttempts += 1]. *)
Theorem Request_unclassified new_request read_hint transport url verb headers :
  new_request verb url = None ->
  all_unclassified transport ->
  Current.Request new_request read_hint transport url verb headers
    = ((invalidEnvelope url, None), repeat (ESend (mkRequest verb url headers)) 8) /\
  (forall fuel version,
     fst (fst (Legacy.Request new_request read_hint transport fuel version url verb headers))
       = None).
Proof.
  intros Hb Hall; split.
  - unfold Current.Request.
    rewrite (current_loop_unclassified new_request read_hint transport url verb headers Hb
               8 maxBackOffAttempts 0 0 Hall ltac:(reflexivity) ltac:(reflexivity)).
    reflexivity.
  - intros fuel version; unfold Legacy.Request.
    pose proof (legacy_loop_unclassified new_request read_hint transport url verb headers Hb
                  fuel 0 0 version Hall ltac:(unfold maxBackOffAttempts; lia)) as H.
    destruct (Legacy.loop new_request read_hint transport fuel url verb headers 0 0 None
                version) as [[ex tr] v]; simpl in *; subst ex; reflexivity.
Qed.

Lemma Request_unclassified_witness :
  builds "GET" url_x = None /\ all_unclassified (always (SendOk resp500)) /\
  fst (fst (Legacy.Request builds no_hint (always (SendOk resp500)) 1000
              Legacy.version_init url_x "GET" [])) = None.
Proof.
  assert (Hb : builds "GET" url_x = None) by reflexivity.
  split; [exact Hb | split; [exact always_500_unclassified |]].
  apply (Request_unclassified builds no_hint (always (SendOk resp500)) url_x "GET" []
           Hb always_500_unclassified).
Defined.

(** ** C4 *)

Lemma forallb_seq_lt (P : nat -> bool) n :
  forallb P (seq 0 n) = true -> forall a, a < n -> P a = true.
Proof.
  intros H a Ha; rewrite forallb_forall in H; apply H, in_seq; lia.
Qed.

Lemma pow2_overflow n : pow2 (1024 + n) = infinity.
Proof.
  induction n as [|n IH].
  - vm_compute; reflexivity.
  - rewrite Nat.add_succ_r; cbn [pow2]; rewrite IH; vm_compute; reflexivity.
Qed.

Lemma expBackoffCalc_overflow a : 1024 <= a -> expBackoffCalc a = infinity.
Proof.
  intros Ha; unfold expBackoffCalc.
  replace a with (1024 + (a - 1024)) by lia; rewrite pow2_overflow.
  vm_compute; reflexivity.
Qed.

(** C4 (counterexample): the binary64 result is not strictly increasing:
    [math.Pow] overflows to [+Inf] at 1024, so attempts 1024 and 1025 give
    the same value. *)
Lemma expBackoffCalc_not_strictly_increasing :
  PrimFloat.ltb (expBackoffCalc 1024) (expBackoffCalc 1025) = false.
Proof. vm_compute; reflexivity. Qed.

(** C4 (amended): over binary64, [expBackoffCalc 0 = 0] and
    [expBackoffCalc 8 = 127.5]; the result is exactly [(2^a - 1) / 2] for
    [a <= 53]; it is non-negative for every [a]; it is strictly increasing
    from 0 up to 1024 and equal to [+Inf] from 1024 on. *)
Theorem expBackoffCalc_spec :
  expBackoffCalc 0 = 0%float /\ expBackoffCalc 8 = 127.5%float /\
  (forall a, a <= 53 ->
     exists q, float_to_Q (expBackoffCalc a) = Some q /\ (q == backoff_exact a)%Q) /\
  (forall a, PrimFloat.leb 0 (expBackoffCalc a) = true) /\
  (forall a, a < 1024 -> PrimFloat.ltb (expBackoffCalc a) (expBackoffCalc (S a)) = true) /\
  (forall a, 1024 <= a -> expBackoffCalc a = infinity).
Proof.
  split; [vm_compute; reflexivity|]. split; [vm_compute; reflexivity|].
  split; [|split; [|split]].
  - intros a Ha.
    assert (Hall : forallb backoff_is_exact (seq 0 54) = true) by (vm_compute; reflexivity).
    pose proof (forallb_seq_lt _ _ Hall a ltac:(lia)) as H.
    unfold backoff_is_exact in H.
    destruct (float_to_Q (expBackoffCalc a)) as [q|]; [|discriminate].
    exists q; split; [reflexivity | apply Qeq_bool_iff; exact H].
  - intros a; destruct (Nat.lt_ge_cases a 1024) as [Ha|Ha].
    + assert (Hall : forallb (fun a => PrimFloat.leb 0 (expBackoffCalc a)) (seq 0 1024) = true)
        by (vm_compute; reflexivity).
      exact (forallb_seq_lt _ _ Hall a Ha).
    + rewrite (expBackoffCalc_overflow a Ha); vm_compute; reflexivity.
  - intros a Ha.
    assert (Hall : forallb (fun a => PrimFloat.ltb (expBackoffCalc a) (expBackoffCalc (S a)))
                     (seq 0 1024) = true) by (vm_compute; reflexivity).
    exact (forallb_seq_lt _ _ Hall a Ha).
  - exact expBackoffCalc_overflow.
Qed.

(** ** C5 *)




(** ** C6 *)

(** C6: at any attempt, in both versions, a failing [http.NewRequest]
    returns at once, before any send, and a failing [client.Do] returns
    right after that one send, each with
    [{nil, {err.Error() + URL, -1}, nil}] and the error; the loop is not
    resumed. *)
Theorem Request_fatal_errors_not_retried new_request read_hint transport url verb headers
  fuel a k err version :
  a < maxBackOffAttempts ->
  (forall e, new_request verb url = Some e ->
     Current.loop new_request read_hint transport (S fuel) url verb headers a k err
       = (Returned (mkHTTPResponse None (mkStatus (e ++ url) (-1)) None, Some e), []) /\
     Legacy.loop new_request read_hint transport (S fuel) url verb headers a k err version
       = (Returned (mkHTTPResponse None (mkStatus (e ++ url) (-1)) None, Some e), [],
          version)) /\
  (forall e, new_request verb url = None -> transport k = SendErr e ->
     Current.loop new_request read_hint transport (S fuel) url verb headers a k err
       = (Returned (mkHTTPResponse None (mkStatus (e ++ url) (-1)) None, Some e),
          [ESend (mkRequest verb url headers)]) /\
     exists v rq,
       Legacy.loop new_request read_hint transport (S fuel) url verb headers a k err version
         = (Returned (mkHTTPResponse None (mkStatus (e ++ url) (-1)) None, Some e),
            [ESend rq], v)).
Proof.
  intros Ha.
  assert (Hlt : Nat.ltb a maxBackOffAttempts = true) by (apply Nat.ltb_lt; exact Ha).
  split.
  - intros e He; simpl; rewrite Hlt; unfold Current.iteration, Legacy.iteration;
      rewrite He; split; reflexivity.
  - intros e Hb Hr; simpl; rewrite Hlt; unfold Current.iteration, Legacy.iteration;
      rewrite Hb, Hr; split; [reflexivity|]; do 2 eexists; reflexivity.
Qed.

Lemma Request_fatal_errors_not_retried_witness :
  0 < maxBackOffAttempts /\
  Current.loop bad_url no_hint (always (SendOk resp200)) 8 url_x "GET" [] 0 0 None
    = (Returned (mkHTTPResponse None
                   (mkStatus ("parse error: invalid URL escape " ++ url_x) (-1)) None,
                 Some "parse error: invalid URL escape "), []).
Proof.
  assert (Ha : 0 < maxBackOffAttempts) by (unfold maxBackOffAttempts; lia).
  split; [exact Ha|].
  apply (proj1 (Request_fatal_errors_not_retried bad_url no_hint (always (SendOk resp200))
                  url_x "GET" [] 7 0 0 None Legacy.version_init Ha)
               "parse error: invalid URL escape " eq_refl).
Defined.

(** ** C7 *)

(** C7: when the loop ends because the count reached 8, [Request] returns
    [{nil, {"Invalid Status Code: " + URL, -1}, nil}] with the [err] of the
    last iteration, which is nil, in both versions. *)
Theorem Request_exhausted_envelope new_request read_hint transport url verb headers :
  (forall e t,
     Current.loop new_request read_hint transport maxBackOffAttempts url verb headers 0 0 None
       = (Exhausted e, t) ->
     Current.Request new_request read_hint transport url verb headers
       = ((mkHTTPResponse None (mkStatus ("Invalid Status Code: " ++ url) (-1)) None, e), t)
     /\ e = None) /\
  (forall fuel version e t v,
     Legacy.loop new_request read_hint transport fuel url verb headers 0 0 None version
       = (Exhausted e, t, v) ->
     Legacy.Request new_request read_hint transport fuel version url verb headers
       = (Some (mkHTTPResponse None (mkStatus ("Invalid Status Code: " ++ url) (-1)) None, e),
          t, v)
     /\ e = None).
Proof.
  split.
  - intros e t H.
    pose proof (current_loop_result new_request read_hint transport maxBackOffAttempts url verb
                  headers 0 0) as Hres.
    rewrite H in Hres; simpl in Hres; subst e.
    unfold Current.Request; rewrite H; split; reflexivity.
  - intros fuel version e t v H.
    pose proof (legacy_loop_result new_request read_hint transport fuel url verb headers 0 0
                  version) as Hres.
    rewrite H in Hres; simpl in Hres; subst e.
    unfold Legacy.Request; rewrite H; split; reflexivity.
Qed.

(** ** Headers of the requests sent, and the package-level [version] *)

Lemma headers_of_sends_app (t1 t2 : list event) :
  headers_of_sends (t1 ++ t2) = (headers_of_sends t1 ++ headers_of_sends t2)%list.
Proof.
  induction t1 as [|[rq|a|s] t1 IH]; simpl; try rewrite IH; reflexivity.
Qed.

(** [headers_of_sends tr = repeat h (sends tr)]: every request sent in [tr]
    carries exactly the headers [h]. *)
Lemma headers_of_sends_repeat_app (h : list (string * string)) t1 t2 :
  headers_of_sends t1 = repeat h (sends t1) ->
  headers_of_sends t2 = repeat h (sends t2) ->
  headers_of_sends (t1 ++ t2)%list = repeat h (sends (t1 ++ t2)%list).
Proof.
  intros H1 H2; rewrite headers_of_sends_app, sends_app, H1, H2, repeat_app; reflexivity.
Qed.

Lemma next_version_idem headers v :
  Legacy.next_version headers (Legacy.next_version headers v) = Legacy.next_version headers v.
Proof.
  unfold Legacy.next_version.
  destruct (String.eqb (map_get "version" headers) "") eqn:E; rewrite ?E; reflexivity.
Qed.

Section HeaderFacts.

Variable new_request : string -> string -> option error.
Variable read_hint : response -> hint.
Variable transport : nat -> send_result.
Variables url verb : string.
Variable headers : list (string * string).

Definition iter_events (ir : iter_result) : list event :=
  match ir with Stop _ ev => ev | Next _ _ ev => ev end.

Lemma current_iteration_headers a k :
  let ev := iter_events (Current.iteration new_request read_hint transport url verb headers a k) in
  headers_of_sends ev = repeat headers (sends ev).
Proof.
  unfold Current.iteration, statusTooManyRequests, statusForbidden, classify.
  iter_cases; pairs_inv; reflexivity.
Qed.

Lemma current_loop_headers fuel a k e :
  let tr := snd (Current.loop new_request read_hint transport fuel url verb headers a k e) in
  headers_of_sends tr = repeat headers (sends tr).
Proof.
  revert a k e; induction fuel as [|fuel IH]; intros a k e; simpl;
    destruct (Nat.ltb a maxBackOffAttempts); try reflexivity.
  pose proof (current_iteration_headers a k) as Hit; simpl in Hit.
  destruct (Current.iteration new_request read_hint transport url verb headers a k)
    as [res ev|a' e' ev]; simpl in *; [exact Hit|].
  specialize (IH a' (S k) e').
  destruct (Current.loop new_request read_hint transport fuel url verb headers a' (S k) e')
    as [ex tr]; simpl in *.
  apply headers_of_sends_repeat_app; assumption.
Qed.

Lemma legacy_iteration_headers a k v :
  let '(ir, v') := Legacy.iteration new_request read_hint transport url verb headers a k v in
  headers_of_sends (iter_events ir)
    = repeat (Legacy.with_user_agent headers (Legacy.next_version headers v))
        (sends (iter_events ir)) /\
  (v' = v \/ v' = Legacy.next_version headers v) /\
  (new_request verb url = None -> v' = Legacy.next_version headers v).
Proof.
  unfold Legacy.iteration, statusTooManyRequests, statusForbidden, classify.
  iter_cases; pairs_inv; simpl;
    (split; [reflexivity | split; [tauto | intros; first [reflexivity | congruence]]]).
Qed.

Lemma legacy_loop_headers fuel a k e v :
  let tr := snd (fst (Legacy.loop new_request read_hint transport fuel url verb headers a k e v)) in
  headers_of_sends tr
    = repeat (Legacy.with_user_agent headers (Legacy.next_version headers v)) (sends tr).
Proof.
  revert a k e v; induction fuel as [|fuel IH]; intros a k e v; simpl;
    destruct (Nat.ltb a maxBackOffAttempts); try reflexivity.
  pose proof (legacy_iteration_headers a k v) as Hit.
  destruct (Legacy.iteration new_request read_hint transport url verb headers a k v)
    as [[res ev|a' e' ev] v']; simpl in *; destruct Hit as [Hev [Hv _]]; [exact Hev|].
  specialize (IH a' (S k) e' v').
  assert (Hnv : Legacy.next_version headers v' = Legacy.next_version headers v)
    by (destruct Hv as [->| ->]; [reflexivity | apply next_version_idem]).
  rewrite Hnv in IH.
  destruct (Legacy.loop new_request read_hint transport fuel url verb headers a' (S k) e' v')
    as [[ex tr] v'']; simpl in *.
  apply headers_of_sends_repeat_app; assumption.
Qed.

(** Once [version] holds what this call's headers set, the loop keeps it. *)
Lemma legacy_loop_version_fixed fuel a k e v :
  new_request verb url = None ->
  Legacy.next_version headers v = v ->
  snd (Legacy.loop new_request read_hint transport fuel url verb headers a k e v) = v.
Proof.
  intros Hb; revert a k e v; induction fuel as [|fuel IH]; intros a k e v Hfix; simpl;
    destruct (Nat.ltb a maxBackOffAttempts); try reflexivity.
  pose proof (legacy_iteration_headers a k v) as Hit.
  destruct (Legacy.iteration new_request read_hint transport url verb headers a k v)
    as [[res ev|a' e' ev] v']; simpl in *; destruct Hit as [_ [_ Hv]];
    specialize (Hv Hb); rewrite Hfix in Hv; subst v'; [reflexivity|].
  specialize (IH a' (S k) e' v Hfix).
  destruct (Legacy.loop new_request read_hint transport fuel url verb headers a' (S k) e' v)
    as [[ex tr] v'']; simpl in *; exact IH.
Qed.

(** The package-level [version] after a legacy call. *)
Lemma legacy_request_version fuel version :
  (new_request verb url = None -> 0 < fuel ->
   snd (Legacy.Request new_request read_hint transport fuel version url verb headers)
     = Legacy.next_version headers version) /\
  (forall e, new_request verb url = Some e ->
   snd (Legacy.Request new_request read_hint transport fuel version url verb headers)
     = version).
Proof.
  split.
  - intros Hb Hf; destruct fuel as [|fuel]; [lia|].
    unfold Legacy.Request; simpl.
    pose proof (legacy_iteration_headers 0 0 version) as Hit.
    destruct (Legacy.iteration new_request read_hint transport url verb headers 0 0 version)
      as [[res ev|a' e' ev] v']; simpl in *; destruct Hit as [_ [_ Hv]];
      specialize (Hv Hb); subst v'; [reflexivity|].
    pose proof (legacy_loop_version_fixed fuel a' 1 e' (Legacy.next_version headers version)
                  Hb (next_version_idem headers version)) as Hfix.
    destruct (Legacy.loop new_request read_hint transport fuel url verb headers a' 1 e'
                (Legacy.next_version headers version)) as [[ex tr] v'']; simpl in *.
    destruct ex; exact Hfix.
  - intros e He; destruct fuel as [|fuel]; unfold Legacy.Request; simpl; [reflexivity|].
    unfold Legacy.iteration at 1; rewrite He; reflexivity.
Qed.

(** Every request a legacy call sends carries the caller's headers and then
    [User-Agent: userAgent/version], [version] being the one in effect. *)
Lemma legacy_request_user_agent fuel version :
  let tr := snd (fst (Legacy.Request new_request read_hint transport fuel version url verb
                        headers)) in
  headers_of_sends tr
    = repeat (Legacy.with_user_agent headers (Legacy.next_version headers version)) (sends tr).
Proof.
  pose proof (legacy_loop_headers fuel 0 0 None version) as H; simpl in *.
  unfold Legacy.Request.
  destruct (Legacy.loop new_request read_hint transport fuel url verb headers 0 0 None version)
    as [[ex tr] v]; simpl in *; destruct ex; exact H.
Qed.

End HeaderFacts.

(** ** C8 *)

(** C8 (counterexample): the current [Request] sends only the caller's
    headers; with none, the request carries no [User-Agent]. *)
Lemma Request_current_no_user_agent :
  headers_of_sends (snd (Current.Request builds no_hint (always (SendOk resp200)) url_x "GET" []))
    = [[]].
Proof. vm_compute. reflexivity. Qed.

(** C8 (amended): on every attempt the legacy [Request] sends the caller's
    headers followed by [User-Agent: "Golang_italia_backend_bot/" + version],
    [version] being the call's non-empty ["version"] header or else the
    package-level value; the current [Request] sends exactly the caller's
    headers and adds no [User-Agent]. *)
Theorem Request_user_agent new_request read_hint transport url verb headers :
  (let tr := snd (Current.Request new_request read_hint transport url verb headers) in
   headers_of_sends tr = repeat headers (sends tr)) /\
  (forall fuel version,
     let tr := snd (fst (Legacy.Request new_request read_hint transport fuel version url verb
                           headers)) in
     headers_of_sends tr
       = repeat (headers ++ [("User-Agent",
                              (Legacy.userAgent ++ "/" ++ Legacy.next_version headers version)%string)])%list
           (sends tr)).
Proof.
  split.
  - pose proof (current_loop_headers new_request read_hint transport url verb headers
                  maxBackOffAttempts 0 0 None) as H; cbv zeta in H |- *.
    unfold Current.Request.
    destruct (Current.loop new_request read_hint transport maxBackOffAttempts url verb headers
                0 0 None) as [ex tr]; simpl in *; destruct ex; exact H.
  - intros fuel version.
    exact (legacy_request_user_agent new_request read_hint transport url verb headers
             fuel version).
Qed.

(** ** C9 *)

Lemma first_rel_absent c ls :
  (forall l, In l ls -> LinkHeader.Rel l <> c) -> first_rel c ls = "".
Proof.
  induction ls as [|l ls IH]; intros H; simpl; [reflexivity|].
  destruct (String.eqb (LinkHeader.Rel l) c) eqn:E.
  - apply String.eqb_eq in E; exfalso; apply (H l); [left; reflexivity | exact E].
  - apply IH; intros l' Hl'; apply H; right; exact Hl'.
Qed.

Lemma first_rel_present c ls l :
  In l ls -> LinkHeader.Rel l = c ->
  exists pre l' post, ls = (pre ++ l' :: post)%list /\ LinkHeader.Rel l' = c /\
    Forall (fun x => LinkHeader.Rel x <> c) pre /\ first_rel c ls = LinkHeader.LinkURL l'.
Proof.
  induction ls as [|x ls IH]; intros Hin Hrel; [destruct Hin|]; simpl.
  destruct (String.eqb (LinkHeader.Rel x) c) eqn:E.
  - apply String.eqb_eq in E; exists [], x, ls; repeat split; auto.
  - destruct Hin as [->|Hin]; [apply String.eqb_neq in E; contradiction|].
    destruct (IH Hin Hrel) as [pre [l' [post [Hls [Hr [Hpre Hf]]]]]].
    exists (x :: pre), l', post; subst ls; repeat split; auto.
    constructor; [apply String.eqb_neq; exact E | exact Hpre].
Qed.

Lemma Parse_url_nonempty h l : In l (LinkHeader.Parse h) -> LinkHeader.LinkURL l <> "".
Proof.
  unfold LinkHeader.Parse; intros Hin; apply filter_In in Hin as [_ Hne].
  intros Heq; rewrite Heq in Hne; discriminate Hne.
Qed.

(** C9: [HeaderLink h c] returns the URL of the first parsed link whose
    relation is [c] (a non-empty URL), and [""] when no parsed link has that
    relation, in particular when nothing parses; it is a total function.
    On [<https://x/2>; rel="next", <https://x/1>; rel="prev"] it returns
    ["https://x/2"] for ["next"] and [""] for the absent ["first"]. *)
Theorem HeaderLink_spec :
  (forall h c, (forall l, In l (LinkHeader.Parse h) -> LinkHeader.Rel l <> c) ->
     HeaderLink h c = "") /\
  (forall h c l, In l (LinkHeader.Parse h) -> LinkHeader.Rel l = c ->
     exists pre l' post, LinkHeader.Parse h = (pre ++ l' :: post)%list /\
       LinkHeader.Rel l' = c /\ Forall (fun x => LinkHeader.Rel x <> c) pre /\
       HeaderLink h c = LinkHeader.LinkURL l' /\ LinkHeader.LinkURL l' <> "") /\
  HeaderLink example_link "next" = "https://x/2" /\
  HeaderLink example_link "first" = "".
Proof.
  split; [|split; [|split]].
  - intros h c H; apply first_rel_absent; exact H.
  - intros h c l Hin Hrel.
    destruct (first_rel_present c _ l Hin Hrel) as [pre [l' [post [Hls [Hr [Hpre Hf]]]]]].
    exists pre, l', post; repeat split; try assumption.
    apply (Parse_url_nonempty h); rewrite Hls; apply in_or_app; right; left; reflexivity.
  - vm_compute; reflexivity.
  - vm_compute; reflexivity.
Qed.

(** ** C10 *)

(** C10 (counterexample): a legacy call carrying ["version"] whose request
    cannot be built leaves the package-level [version] unchanged. *)
Lemma Request_version_kept_on_bad_request :
  snd (Legacy.Request bad_url no_hint (always (SendOk resp200)) maxBackOffAttempts
         Legacy.version_init url_x "GET" [("version", "2.0.0")]) = Legacy.version_init.
Proof. vm_compute. reflexivity. Qed.

(** C10 (amended): a legacy call whose request is built sets the
    package-level [version] to its non-empty ["version"] header (a call
    whose construction fails leaves it as it was); every request a later
    call sends carries [User-Agent: userAgent/version] with that value
    unless the later call has its own ["version"]; so two runs with the same
    arguments attach different [User-Agent] headers after different earlier
    calls. *)
Theorem Request_version_state new_request read_hint transport url verb headers fuel version :
  (new_request verb url = None -> 0 < fuel ->
   snd (Legacy.Request new_request read_hint transport fuel version url verb headers)
     = Legacy.next_version headers version) /\
  (forall e, new_request verb url = Some e ->
   snd (Legacy.Request new_request read_hint transport fuel version url verb headers)
     = version) /\
  (let tr := snd (fst (Legacy.Request new_request read_hint transport fuel version url verb
                         headers)) in
   headers_of_sends tr
     = repeat (Legacy.with_user_agent headers (Legacy.next_version headers version))
         (sends tr)) /\
  (let v1 := snd (Legacy.Request builds no_hint (always (SendOk resp200)) maxBackOffAttempts
                    Legacy.version_init url_x "GET" [("version", "2.0.0")]) in
   headers_of_sends (snd (fst (Legacy.Request builds no_hint (always (SendOk resp200))
                                 maxBackOffAttempts v1 url_x "GET" [])))
     = [[("User-Agent", "Golang_italia_backend_bot/2.0.0")]] /\
   headers_of_sends (snd (fst (Legacy.Request builds no_hint (always (SendOk resp200))
                                 maxBackOffAttempts Legacy.version_init url_x "GET" [])))
     = [[("User-Agent", "Golang_italia_backend_bot/0.0.1_local")]]).
Proof.
  destruct (legacy_request_version new_request read_hint transport url verb headers
              fuel version) as [Hok Hbad].
  split; [exact Hok | split; [exact Hbad | split]].
  - exact (legacy_request_user_agent new_request read_hint transport url verb headers
             fuel version).
  - vm_compute; split; reflexivity.
Qed.

(** * Further properties of [Request] *)

Definition is_sleep (ev : event) : bool :=
  match ev with ESleepBackoff _ | ESleepHint _ => true | ESend _ => false end.

(** Number of sleeps in a trace. *)
Definition sleeps (tr : list event) : nat := length (filter is_sleep tr).

(** Every exponential-backoff sleep of the trace is at a count below [n]. *)
Definition backoff_below (n : nat) (tr : list event) : Prop :=
  Forall (fun ev => match ev with ESleepBackoff x => x < n | _ => True end) tr.

(** A send answered by a 429 or a 403 whose retry hint can be read. *)
Definition retry_resp (read_hint : response -> hint) (s : send_result) : Prop :=
  exists r, s = SendOk r /\ (StatusCode r = 429%Z \/ StatusCode r = 403%Z) /\
            (forall e, read_hint r <> BadHint e).

(** The counts at which the trace sleeps for [expBackoffCalc]. *)
Fixpoint backoff_sleeps (tr : list event) : list nat :=
  match tr with
  | [] => []
  | ESleepBackoff a :: tr' => a :: backoff_sleeps tr'
  | _ :: tr' => backoff_sleeps tr'
  end.

Lemma sleeps_app (t1 t2 : list event) : sleeps (t1 ++ t2) = sleeps t1 + sleeps t2.
Proof. unfold sleeps; rewrite filter_app, length_app; reflexivity. Qed.

Lemma backoff_sleeps_app (t1 t2 : list event) :
  backoff_sleeps (t1 ++ t2) = (backoff_sleeps t1 ++ backoff_sleeps t2)%list.
Proof. induction t1 as [|[rq|a|s] t1 IH]; simpl; try rewrite IH; reflexivity. Qed.

(** Inverts equations between iteration outcomes left by [iter_cases]. *)
Ltac iter_inv :=
  repeat match goal with
  | H : Stop _ _ = Stop _ _ |- _ => inversion H; subst; clear H
  | H : Next _ _ _ = Next _ _ _ |- _ => inversion H; subst; clear H
  | H : Stop _ _ = Next _ _ _ |- _ => discriminate H
  | H : Next _ _ _ = Stop _ _ |- _ => discriminate H
  end.

Section Budget.

Variable new_request : string -> string -> option error.
Variable read_hint : response -> hint.
Variable transport : nat -> send_result.
Variables url verb : string.
Variable headers : list (string * string).

Lemma current_iteration_budget a k :
  match Current.iteration new_request read_hint transport url verb headers a k with
  | Stop _ ev => sends ev <= 1 /\ sleeps ev = 0
  | Next a' _ ev =>
      sends ev = 1 /\ a' = S a + sleeps ev /\ sleeps ev <= 1 /\ backoff_below (S a) ev
  end.
Proof.
  unfold Current.iteration, statusTooManyRequests, statusForbidden, classify.
  unfold sends, sleeps, backoff_below.
  iter_cases; pairs_inv; iter_inv; simpl;
    repeat split; try lia;
    repeat (apply Forall_cons; [simpl; try lia; exact I|]); apply Forall_nil.
Qed.

(** The current loop sends at most [8 - a] requests, sleeps at most
    [(9 - a) / 2] times, and only sleeps at counts below 8. *)
Lemma current_loop_budget fuel a k e :
  let tr := snd (Current.loop new_request read_hint transport fuel url verb headers a k e) in
  sends tr <= maxBackOffAttempts - a /\ 2 * sleeps tr <= S maxBackOffAttempts - a /\
  backoff_below maxBackOffAttempts tr.
Proof.
  revert a k e; induction fuel as [|fuel IH]; intros a k e; cbv zeta;
    cbn [Current.loop]; destruct (Nat.ltb a maxBackOffAttempts) eqn:Hlt;
    cbn [snd]; try (unfold sends, sleeps; cbn [filter length];
                    split; [lia | split; [lia | constructor]]).
  apply Nat.ltb_lt in Hlt; unfold maxBackOffAttempts in *.
  pose proof (current_iteration_budget a k) as Hit.
  destruct (Current.iteration new_request read_hint transport url verb headers a k)
    as [res ev|a' e' ev]; cbn [snd].
  - destruct Hit as [Hs Hsl]; split; [lia | split; [lia|]].
    unfold sleeps in Hsl; unfold backoff_below; rewrite Forall_forall.
    intros x Hx; destruct x as [rq|b|s]; trivial.
    assert (Hin : In (ESleepBackoff b) (filter is_sleep ev)) by (apply filter_In; auto).
    destruct (filter is_sleep ev); [destruct Hin | discriminate Hsl].
  - destruct Hit as [Hs [Ha' [Hsl Hb]]].
    specialize (IH a' (S k) e').
    destruct (Current.loop new_request read_hint transport fuel url verb headers a' (S k) e')
      as [ex tr]; cbv zeta in IH; cbn [snd] in IH |- *.
    destruct IH as [IHs [IHsl IHb]].
    rewrite sends_app, sleeps_app; split; [lia | split; [lia|]].
    apply Forall_app; split; [|exact IHb].
    eapply Forall_impl; [|exact Hb]; intros [rq|x|s]; simpl; trivial; lia.
Qed.

(** Every run of the current [Request] sends at most 8 requests and sleeps
    at most 4 times, and every exponential-backoff sleep is at a count below
    8 (the longest is [expBackoffCalc 7]). *)
Theorem Request_current_budget :
  let tr := snd (Current.Request new_request read_hint transport url verb headers) in
  sends tr <= 8 /\ sleeps tr <= 4 /\ backoff_below 8 tr.
Proof.
  unfold Current.Request.
  pose proof (current_loop_budget maxBackOffAttempts 0 0 None) as H.
  destruct (Current.loop new_request read_hint transport maxBackOffAttempts url verb
              headers 0 0 None) as [ex tr]; cbv zeta in H |- *; cbn [snd] in H.
  unfold maxBackOffAttempts in H; destruct H as [Hs [Hsl Hb]].
  destruct ex; cbn [snd]; (split; [lia | split; [lia | exact Hb]]).
Qed.

End Budget.

(** ** Runs that start with retried responses *)

Section Prefix.

Variable new_request : string -> string -> option error.
Variable read_hint : response -> hint.
Variable transport : nat -> send_result.
Variables url verb : string.
Variable headers : list (string * string).
Hypothesis Hbuild : new_request verb url = None.

Lemma current_iteration_retry_at a k :
  retry_resp read_hint (transport k) ->
  exists ev, Current.iteration new_request read_hint transport url verb headers a k
             = Next (S (S a)) None ev /\ sends ev = 1.
Proof.
  intros [r [Hr [Hc Hh]]].
  unfold Current.iteration, statusTooManyRequests, statusForbidden, classify.
  rewrite Hbuild, Hr.
  destruct Hc as [Hc|Hc]; rewrite Hc; simpl;
    destruct (read_hint r) eqn:Hrh; try (exfalso; eapply Hh; reflexivity);
    eexists; split; reflexivity.
Qed.

Lemma legacy_iteration_retry_at a k v :
  retry_resp read_hint (transport k) ->
  exists ev, Legacy.iteration new_request read_hint transport url verb headers a k v
             = (Next (S a) None ev, Legacy.next_version headers v) /\ sends ev = 1.
Proof.
  intros [r [Hr [Hc Hh]]].
  unfold Legacy.iteration, statusTooManyRequests, statusForbidden, classify.
  rewrite Hbuild, Hr.
  destruct Hc as [Hc|Hc]; rewrite Hc; simpl;
    destruct (read_hint r) eqn:Hrh; try (exfalso; eapply Hh; reflexivity);
    eexists; split; reflexivity.
Qed.

(** [j] retried responses from the [k]-th send on: the current loop makes
    [j] sends and continues at count [a + 2 j] and send [k + j]. *)
Lemma current_loop_prefix j fuel a k e :
  (forall i, i < j -> retry_resp read_hint (transport (k + i))) ->
  j <= fuel -> a + 2 * j < maxBackOffAttempts ->
  exists tr0 e', sends tr0 = j /\
    Current.loop new_request read_hint transport fuel url verb headers a k e =
    (fst (Current.loop new_request read_hint transport (fuel - j) url verb headers
            (a + 2 * j) (k + j) e'),
     (tr0 ++ snd (Current.loop new_request read_hint transport (fuel - j) url verb headers
            (a + 2 * j) (k + j) e'))%list).
Proof.
  revert fuel a k e; induction j as [|j IH]; intros fuel a k e Hr Hj Ha.
  - exists [], e; split; [reflexivity|].
    rewrite Nat.sub_0_r, !Nat.add_0_r.
    destruct (Current.loop _ _ _ _ _ _ _ _ _ _); reflexivity.
  - destruct fuel as [|fuel]; [lia|].
    destruct (current_iteration_retry_at a k) as [ev [Hit Hev]].
    { rewrite <- (Nat.add_0_r k); apply Hr; lia. }
    destruct (IH fuel (S (S a)) (S k) None) as [tr0 [e' [Hs Heq]]].
    { intros i Hi; replace (S k + i) with (k + S i) by lia; apply Hr; lia. }
    { lia. }
    { lia. }
    exists (ev ++ tr0)%list, e'; split; [rewrite sends_app; lia|].
    cbn [Current.loop].
    replace (Nat.ltb a maxBackOffAttempts) with true
      by (symmetry; apply Nat.ltb_lt; lia).
    rewrite Hit, Heq.
    replace (S fuel - S j) with (fuel - j) by lia.
    replace (a + 2 * S j) with (S (S a) + 2 * j) by lia.
    replace (k + S j) with (S k + j) by lia.
    destruct (Current.loop _ _ _ _ _ _ _ _ _ _); cbn [fst snd].
    rewrite app_assoc; reflexivity.
Qed.

(** The same for the legacy loop, which continues at count [a + j]. *)
Lemma legacy_loop_prefix j fuel a k e v :
  (forall i, i < j -> retry_resp read_hint (transport (k + i))) ->
  j <= fuel -> a + j < maxBackOffAttempts ->
  exists tr0 e' v', sends tr0 = j /\
    Legacy.loop new_request read_hint transport fuel url verb headers a k e v =
    (fst (fst (Legacy.loop new_request read_hint transport (fuel - j) url verb headers
                 (a + j) (k + j) e' v')),
     (tr0 ++ snd (fst (Legacy.loop new_request read_hint transport (fuel - j) url verb
                 headers (a + j) (k + j) e' v')))%list,
     snd (Legacy.loop new_request read_hint transport (fuel - j) url verb headers
            (a + j) (k + j) e' v')).
Proof.
  revert fuel a k e v; induction j as [|j IH]; intros fuel a k e v Hr Hj Ha.
  - exists [], e, v; split; [reflexivity|].
    rewrite Nat.sub_0_r, !Nat.add_0_r.
    destruct (Legacy.loop _ _ _ _ _ _ _ _ _ _ _) as [[? ?] ?]; reflexivity.
  - destruct fuel as [|fuel]; [lia|].
    destruct (legacy_iteration_retry_at a k v) as [ev [Hit Hev]].
    { rewrite <- (Nat.add_0_r k); apply Hr; lia. }
    destruct (IH fuel (S a) (S k) None (Legacy.next_version headers v))
      as [tr0 [e' [v' [Hs Heq]]]].
    { intros i Hi; replace (S k + i) with (k + S i) by lia; apply Hr; lia. }
    { lia. }
    { lia. }
    exists (ev ++ tr0)%list, e', v'; split; [rewrite sends_app; lia|].
    cbn [Legacy.loop].
    replace (Nat.ltb a maxBackOffAttempts) with true
      by (symmetry; apply Nat.ltb_lt; lia).
    rewrite Hit, Heq.
    replace (S fuel - S j) with (fuel - j) by lia.
    replace (a + S j) with (S a + j) by lia.
    replace (k + S j) with (S k + j) by lia.
    destruct (Legacy.loop _ _ _ _ _ _ _ _ _ _ _) as [[? ?] ?]; cbn [fst snd].
    rewrite app_assoc; reflexivity.
Qed.

(** The current [Request] when its first [j] responses are retried and the
    iteration at send [j] returns. *)
Lemma current_request_after_retries j res ev :
  (forall i, i < j -> retry_resp read_hint (transport i)) -> j < 4 ->
  Current.iteration new_request read_hint transport url verb headers (2 * j) j
    = Stop res ev ->
  fst (Current.Request new_request read_hint transport url verb headers) = res /\
  sends (snd (Current.Request new_request read_hint transport url verb headers))
    = j + sends ev.
Proof.
  intros Hr Hj Hit; unfold Current.Request.
  destruct (current_loop_prefix j maxBackOffAttempts 0 0 None) as [tr0 [e' [Hs Heq]]];
    [exact Hr | unfold maxBackOffAttempts; lia | unfold maxBackOffAttempts; lia |].
  rewrite Heq, !Nat.add_0_l.
  replace (maxBackOffAttempts - j) with (S (7 - j)) by (unfold maxBackOffAttempts; lia).
  cbn [Current.loop].
  replace (Nat.ltb (2 * j) maxBackOffAttempts) with true
    by (symmetry; apply Nat.ltb_lt; unfold maxBackOffAttempts; lia).
  rewrite Hit; cbn [fst snd]; split; [reflexivity | rewrite sends_app; lia].
Qed.

(** The same for the legacy [Request], whose iteration at send [j] returns
    whatever the package-level [version]. *)
Lemma legacy_request_after_retries fuel version j res s :
  (forall i, i < j -> retry_resp read_hint (transport i)) -> j < 8 -> j < fuel ->
  (forall v, exists ev v', Legacy.iteration new_request read_hint transport url verb
                             headers j j v = (Stop res ev, v') /\ sends ev = s) ->
  fst (fst (Legacy.Request new_request read_hint transport fuel version url verb headers))
    = Some res /\
  sends (snd (fst (Legacy.Request new_request read_hint transport fuel version url verb
                     headers))) = j + s.
Proof.
  intros Hr Hj Hf Hit; unfold Legacy.Request.
  destruct (legacy_loop_prefix j fuel 0 0 None version) as [tr0 [e' [v' [Hs Heq]]]];
    [exact Hr | lia | unfold maxBackOffAttempts; lia |].
  rewrite Heq, !Nat.add_0_l.
  replace (fuel - j) with (S (fuel - S j)) by lia.
  cbn [Legacy.loop].
  replace (Nat.ltb j maxBackOffAttempts) with true
    by (symmetry; apply Nat.ltb_lt; unfold maxBackOffAttempts; lia).
  destruct (Hit v') as [ev [v'' [Hv Hev]]]; rewrite Hv; cbn [fst snd].
  split; [reflexivity | rewrite sends_app; lia].
Qed.

(** A send the loop does not retry: the transport fails with [e], or
    answers a 429 or a 403 whose retry hint cannot be read ([e]). *)
Definition fatal_at (s : send_result) (e : error) : Prop :=
  s = SendErr e \/
  exists r, s = SendOk r /\ (StatusCode r = 429%Z \/ StatusCode r = 403%Z) /\
            read_hint r = BadHint e.

(** After [j < 4] retried responses (429 or 403 with a readable hint), a
    response with a 2xx status ends the current [Request]: it returns that
    response through [statusOK], after [j + 1] sends. *)
Theorem Request_current_success_after_retries j r :
  j < 4 -> (forall i, i < j -> retry_resp read_hint (transport i)) ->
  transport j = SendOk r -> (200 <= StatusCode r <= 299)%Z ->
  fst (Current.Request new_request read_hint transport url verb headers) = statusOK r /\
  sends (snd (Current.Request new_request read_hint transport url verb headers)) = S j.
Proof.
  intros Hj Hr Ht Hc.
  assert (H2 : ((200 <=? StatusCode r)%Z && (StatusCode r <=? 299)%Z)%bool = true)
    by (apply andb_true_intro; split; apply Z.leb_le; lia).
  destruct (current_request_after_retries j (statusOK r)
              [ESend (mkRequest verb url headers)] Hr Hj) as [H1 Hs].
  - unfold Current.iteration; rewrite Hbuild, Ht; cbv zeta; rewrite H2; reflexivity.
  - split; [exact H1 | rewrite Hs; unfold sends; simpl; lia].
Qed.

(** After [j < 8] retried responses, a response with status 200 or 201
    ends the legacy [Request] (given fuel for [j + 1] iterations): it returns
    that response through [statusOK], after [j + 1] sends. *)
Theorem Request_legacy_success_after_retries fuel version j r :
  j < 8 -> j < fuel -> (forall i, i < j -> retry_resp read_hint (transport i)) ->
  transport j = SendOk r -> (StatusCode r = 200%Z \/ StatusCode r = 201%Z) ->
  fst (fst (Legacy.Request new_request read_hint transport fuel version url verb headers))
    = Some (statusOK r) /\
  sends (snd (fst (Legacy.Request new_request read_hint transport fuel version url verb
                     headers))) = S j.
Proof.
  intros Hj Hf Hr Ht Hc.
  destruct (legacy_request_after_retries fuel version j (statusOK r) 1 Hr Hj Hf)
    as [H1 Hs].
  - intros v; unfold Legacy.iteration; rewrite Hbuild, Ht.
    destruct Hc as [Hc|Hc]; cbv zeta; rewrite Hc; cbn;
      eexists _, _; split; reflexivity.
  - split; [exact H1 | rewrite Hs; lia].
Qed.

(** After retried responses (fewer than 4 in the current version, fewer
    than 8 in the legacy one), a 404 ends [Request]: it returns that
    response through [statusNotFound], after [j + 1] sends. *)
Theorem Request_not_found_after_retries fuel version j r :
  (forall i, i < j -> retry_resp read_hint (transport i)) ->
  transport j = SendOk r -> StatusCode r = 404%Z ->
  (j < 4 ->
   fst (Current.Request new_request read_hint transport url verb headers)
     = statusNotFound r /\
   sends (snd (Current.Request new_request read_hint transport url verb headers)) = S j) /\
  (j < 8 -> j < fuel ->
   fst (fst (Legacy.Request new_request read_hint transport fuel version url verb headers))
     = Some (statusNotFound r) /\
   sends (snd (fst (Legacy.Request new_request read_hint transport fuel version url verb
                      headers))) = S j).
Proof.
  intros Hr Ht Hc; split.
  - intros Hj.
    destruct (current_request_after_retries j (statusNotFound r)
                [ESend (mkRequest verb url headers)] Hr Hj) as [H1 Hs].
    + unfold Current.iteration; rewrite Hbuild, Ht; cbv zeta; rewrite Hc; reflexivity.
    + split; [exact H1 | rewrite Hs; unfold sends; simpl; lia].
  - intros Hj Hf.
    destruct (legacy_request_after_retries fuel version j (statusNotFound r) 1 Hr Hj Hf)
      as [H1 Hs].
    + intros v; unfold Legacy.iteration; rewrite Hbuild, Ht; cbv zeta; rewrite Hc; cbn;
        eexists _, _; split; reflexivity.
    + split; [exact H1 | rewrite Hs; lia].
Qed.

(** After retried responses (fewer than 4 in the current version, fewer
    than 8 in the legacy one), a transport error [e], or a 429 or 403 whose
    retry hint cannot be read ([e]), ends [Request] with the error envelope
    [{nil, {e + URL, -1}, nil}, e], after [j + 1] sends: it is not retried. *)
Theorem Request_fatal_after_retries fuel version j e :
  (forall i, i < j -> retry_resp read_hint (transport i)) ->
  fatal_at (transport j) e ->
  (j < 4 ->
   fst (Current.Request new_request read_hint transport url verb headers)
     = errEnvelope e url /\
   sends (snd (Current.Request new_request read_hint transport url verb headers)) = S j) /\
  (j < 8 -> j < fuel ->
   fst (fst (Legacy.Request new_request read_hint transport fuel version url verb headers))
     = Some (errEnvelope e url) /\
   sends (snd (fst (Legacy.Request new_request read_hint transport fuel version url verb
                      headers))) = S j).
Proof.
  intros Hr Hfat; split.
  - intros Hj.
    assert (Hit : exists ev, Current.iteration new_request read_hint transport url verb
                               headers (2 * j) j = Stop (errEnvelope e url) ev /\
                             sends ev = 1).
    { unfold Current.iteration, statusTooManyRequests, statusForbidden, classify.
      rewrite Hbuild.
      destruct Hfat as [Ht | [r [Ht [[Hc|Hc] Hh]]]]; rewrite Ht;
        [| cbv zeta; rewrite Hc; cbn; rewrite Hh
         | cbv zeta; rewrite Hc; cbn; rewrite Hh];
        eexists; split; reflexivity. }
    destruct Hit as [ev [Hit Hev]].
    destruct (current_request_after_retries j _ ev Hr Hj Hit) as [H1 Hs].
    split; [exact H1 | lia].
  - intros Hj Hf.
    destruct (legacy_request_after_retries fuel version j (errEnvelope e url) 1 Hr Hj Hf)
      as [H1 Hs].
    + intros v; unfold Legacy.iteration, statusTooManyRequests, statusForbidden, classify.
      rewrite Hbuild.
      destruct Hfat as [Ht | [r [Ht [[Hc|Hc] Hh]]]]; rewrite Ht;
        [| cbv zeta; rewrite Hc; cbn; rewrite Hh
         | cbv zeta; rewrite Hc; cbn; rewrite Hh];
        eexists _, _; split; reflexivity.
    + split; [exact H1 | lia].
Qed.

End Prefix.

(** ** The backoff schedule *)

(** Total time slept by the backoff sleeps at the given counts. *)
Definition backoff_total (l : list nat) : float :=
  fold_right (fun a acc => (expBackoffCalc a + acc)%float) 0%float l.

Section Schedule.

Variable new_request : string -> string -> option error.
Variable read_hint : response -> hint.
Variable transport : nat -> send_result.
Variables url verb : string.
Variable headers : list (string * string).
Hypothesis Hbuild : new_request verb url = None.

(** Every response is a 429 or a 403 without a retry hint, so the
    classifiers sleep for [expBackoffCalc] of the current count. *)
Definition all_backoff : Prop :=
  forall k, exists r, transport k = SendOk r /\
    (StatusCode r = 429%Z \/ StatusCode r = 403%Z) /\ read_hint r = NoHint.

Hypothesis Hall : all_backoff.

Lemma current_iteration_backoff a k :
  exists rq, Current.iteration new_request read_hint transport url verb headers a k
             = Next (S (S a)) None [ESend rq; ESleepBackoff a].
Proof.
  destruct (Hall k) as [r [Hr [Hc Hh]]].
  unfold Current.iteration, statusTooManyRequests, statusForbidden, classify.
  rewrite Hbuild, Hr.
  destruct Hc as [Hc|Hc]; cbv zeta; rewrite Hc; cbn; rewrite Hh; eexists; reflexivity.
Qed.

Lemma legacy_iteration_backoff a k v :
  exists rq, Legacy.iteration new_request read_hint transport url verb headers a k v
             = (Next (S a) None [ESend rq; ESleepBackoff a], Legacy.next_version headers v).
Proof.
  destruct (Hall k) as [r [Hr [Hc Hh]]].
  unfold Legacy.iteration, statusTooManyRequests, statusForbidden, classify.
  rewrite Hbuild, Hr.
  destruct Hc as [Hc|Hc]; cbv zeta; rewrite Hc; cbn; rewrite Hh; eexists; reflexivity.
Qed.

Lemma current_loop_schedule j fuel a k :
  j <= fuel -> a + 2 * j = maxBackOffAttempts ->
  backoff_sleeps (snd (Current.loop new_request read_hint transport fuel url verb headers
                         a k None)) = map (fun i => a + 2 * i) (seq 0 j).
Proof.
  revert fuel a k; induction j as [|j IH]; intros fuel a k Hj Ha.
  - destruct fuel; cbn [Current.loop]; unfold maxBackOffAttempts in *;
      replace (Nat.ltb a 8) with false by (symmetry; apply Nat.ltb_ge; lia); reflexivity.
  - destruct fuel as [|fuel]; [lia|]; cbn [Current.loop].
    replace (Nat.ltb a maxBackOffAttempts) with true
      by (symmetry; apply Nat.ltb_lt; unfold maxBackOffAttempts in *; lia).
    destruct (current_iteration_backoff a k) as [rq Hit]; rewrite Hit.
    specialize (IH fuel (S (S a)) (S k) ltac:(lia) ltac:(lia)).
    destruct (Current.loop new_request read_hint transport fuel url verb headers
                (S (S a)) (S k) None) as [ex tr]; cbn [snd] in *.
    rewrite backoff_sleeps_app, IH; cbn.
    rewrite <- seq_shift, map_map; f_equal; [lia | apply map_ext; intros; lia].
Qed.

Lemma legacy_loop_schedule j fuel a k v :
  j <= fuel -> a + j = maxBackOffAttempts ->
  backoff_sleeps (snd (fst (Legacy.loop new_request read_hint transport fuel url verb
                              headers a k None v))) = seq a j.
Proof.
  revert fuel a k v; induction j as [|j IH]; intros fuel a k v Hj Ha.
  - destruct fuel; cbn [Legacy.loop]; unfold maxBackOffAttempts in *;
      replace (Nat.ltb a 8) with false by (symmetry; apply Nat.ltb_ge; lia); reflexivity.
  - destruct fuel as [|fuel]; [lia|]; cbn [Legacy.loop].
    replace (Nat.ltb a maxBackOffAttempts) with true
      by (symmetry; apply Nat.ltb_lt; unfold maxBackOffAttempts in *; lia).
    destruct (legacy_iteration_backoff a k v) as [rq Hit]; rewrite Hit.
    specialize (IH fuel (S a) (S k) (Legacy.next_version headers v) ltac:(lia) ltac:(lia)).
    destruct (Legacy.loop new_request read_hint transport fuel url verb headers
                (S a) (S k) None (Legacy.next_version headers v)) as [[ex tr] v'];
      cbn [snd fst] in *.
    rewrite backoff_sleeps_app, IH; reflexivity.
Qed.

(** When every response is a 429 or a 403 without a retry hint, the current
    [Request] sleeps [expBackoffCalc] at counts 0, 2, 4 and 6 (the count
    rises by two per response), 40.5 seconds in all; the legacy [Request]
    (given fuel for 8 iterations) sleeps at counts 0 to 7, 123.5 seconds in
    all. *)
Theorem Request_backoff_schedule fuel version :
  8 <= fuel ->
  backoff_sleeps (snd (Current.Request new_request read_hint transport url verb headers))
    = [0; 2; 4; 6] /\
  backoff_total [0; 2; 4; 6] = 40.5%float /\
  backoff_sleeps (snd (fst (Legacy.Request new_request read_hint transport fuel version
                              url verb headers))) = [0; 1; 2; 3; 4; 5; 6; 7] /\
  backoff_total [0; 1; 2; 3; 4; 5; 6; 7] = 123.5%float.
Proof.
  intros Hf; split; [|split; [vm_compute; reflexivity|split; [|vm_compute; reflexivity]]].
  - unfold Current.Request.
    pose proof (current_loop_schedule 4 maxBackOffAttempts 0 0) as H.
    destruct (Current.loop new_request read_hint transport maxBackOffAttempts url verb
                headers 0 0 None) as [ex tr]; cbn [snd] in *.
    specialize (H ltac:(unfold maxBackOffAttempts; lia) eq_refl); cbn in H.
    destruct ex; exact H.
  - unfold Legacy.Request.
    pose proof (legacy_loop_schedule 8 fuel 0 0 version Hf eq_refl) as H.
    destruct (Legacy.loop new_request read_hint transport fuel url verb headers 0 0 None
                version) as [[ex tr] v]; cbn [snd fst] in *.
    destruct ex; exact H.
Qed.

End Schedule.

(** ** The link-header parser *)

Section LinkHeaderFacts.

Import LinkHeader.

(** No character of [s] is in [cut]. *)
Definition avoids (cut : list Ascii.ascii) (s : string) : bool :=
  forallb (fun c => negb (in_cutset cut c)) (list_ascii_of_string s).

Lemma avoids_In cut s c :
  avoids cut s = true -> In c (list_ascii_of_string s) -> in_cutset cut c = false.
Proof.
  unfold avoids; rewrite forallb_forall; intros H Hc; apply H in Hc.
  destruct (in_cutset cut c); [discriminate Hc | reflexivity].
Qed.

Lemma chars_app (s1 s2 : string) :
  list_ascii_of_string (s1 ++ s2) = (list_ascii_of_string s1 ++ list_ascii_of_string s2)%list.
Proof. induction s1 as [|c s1 IH]; simpl; [reflexivity | rewrite IH; reflexivity]. Qed.

Lemma append_assoc (s1 s2 s3 : string) : s1 ++ (s2 ++ s3) = (s1 ++ s2) ++ s3.
Proof. induction s1 as [|c s1 IH]; simpl; [reflexivity | rewrite IH; reflexivity]. Qed.

Lemma split_nonnil sep s : split sep s <> [].
Proof.
  destruct s as [|c s]; simpl; [discriminate|].
  destruct (Ascii.eqb c sep); [discriminate|].
  destruct (split sep s); discriminate.
Qed.

(** [strings.Split] of two strings joined by the separator. *)
Lemma split_app sep s1 s2 :
  split sep (s1 ++ String sep s2) = (split sep s1 ++ split sep s2)%list.
Proof.
  induction s1 as [|c s1 IH]; simpl.
  - rewrite Ascii.eqb_refl; reflexivity.
  - rewrite IH; destruct (Ascii.eqb c sep); [reflexivity|].
    destruct (split sep s1) as [|p ps] eqn:E; [exfalso; exact (split_nonnil sep s1 E)|].
    reflexivity.
Qed.

Lemma split_avoid sep s :
  (forall c, In c (list_ascii_of_string s) -> Ascii.eqb c sep = false) ->
  split sep s = [s].
Proof.
  induction s as [|c s IH]; intros H; simpl; [reflexivity|].
  rewrite (H c (or_introl eq_refl)).
  rewrite IH; [reflexivity|].
  intros c' Hc'; apply H; right; exact Hc'.
Qed.

(** Every piece [strings.Split] returns is made of characters of its input. *)
Lemma split_chars sep s p c :
  In p (split sep s) -> In c (list_ascii_of_string p) -> In c (list_ascii_of_string s).
Proof.
  revert p; induction s as [|c0 s IH]; intros p Hp Hc; simpl in *.
  - destruct Hp as [<-|[]]; destruct Hc.
  - destruct (Ascii.eqb c0 sep).
    + destruct Hp as [<-|Hp]; [destruct Hc | right; exact (IH p Hp Hc)].
    + destruct (split sep s) as [|p0 ps] eqn:E.
      * destruct Hp as [<-|[]]; simpl in Hc; destruct Hc as [<-|[]]; left; reflexivity.
      * destruct Hp as [<-|Hp].
        -- simpl in Hc; destruct Hc as [<-|Hc]; [left; reflexivity|].
           right; apply (IH p0); [left; reflexivity | exact Hc].
        -- right; apply (IH p); [right; exact Hp | exact Hc].
Qed.

Lemma trim_left_suffix cut l : exists pre, l = (pre ++ trim_left cut l)%list.
Proof.
  induction l as [|c l IH]; simpl; [exists []; reflexivity|].
  destruct (in_cutset cut c).
  - destruct IH as [pre Hpre]; exists (c :: pre); simpl; rewrite <- Hpre; reflexivity.
  - exists []; reflexivity.
Qed.

Lemma trim_left_In cut l c : In c (trim_left cut l) -> In c l.
Proof.
  intros H; destruct (trim_left_suffix cut l) as [pre Hpre].
  rewrite Hpre; apply in_or_app; right; exact H.
Qed.

Lemma trim_left_avoid cut l :
  (forall c, In c l -> in_cutset cut c = false) -> trim_left cut l = l.
Proof. destruct l as [|c l]; intros H; simpl; [|rewrite (H c (or_introl eq_refl))]; reflexivity. Qed.

(** [strings.Trim] only removes characters. *)
Lemma trim_chars cut s c :
  In c (list_ascii_of_string (trim cut s)) -> In c (list_ascii_of_string s).
Proof.
  unfold trim; rewrite list_ascii_of_string_of_list_ascii; intros H.
  apply in_rev, trim_left_In, in_rev, trim_left_In in H; exact H.
Qed.

Lemma trim_cons_cut cut c s : in_cutset cut c = true -> trim cut (String c s) = trim cut s.
Proof. intros H; unfold trim; simpl; rewrite H; reflexivity. Qed.

(** [strings.Trim] leaves a string alone when its first and last characters
    are not in the cutset. *)
Lemma trim_ends cut s c m d :
  list_ascii_of_string s = (c :: m ++ [d])%list ->
  in_cutset cut c = false -> in_cutset cut d = false -> trim cut s = s.
Proof.
  intros Hs Hc Hd; unfold trim; rewrite Hs; cbn [trim_left]; rewrite Hc.
  change (c :: m ++ [d])%list with ((c :: m) ++ [d])%list.
  rewrite rev_app_distr; cbn [rev app trim_left]; rewrite Hd.
  replace (d :: rev m ++ [c])%list with (rev (c :: m ++ [d]))%list
    by (simpl; rewrite rev_app_distr; reflexivity).
  rewrite rev_involutive, <- Hs, string_of_list_ascii_of_string; reflexivity.
Qed.

(** [strings.Trim] of a string wrapped in two cutset characters, whose own
    characters are not in the cutset, gives the string back. *)
Lemma trim_wrapped cut q1 q2 s :
  in_cutset cut q1 = true -> in_cutset cut q2 = true -> avoids cut s = true ->
  trim cut (String q1 (s ++ String q2 "")) = s.
Proof.
  intros H1 H2 Hs; unfold trim; cbn [list_ascii_of_string]; rewrite chars_app.
  cbn [list_ascii_of_string trim_left]; rewrite H1.
  destruct (list_ascii_of_string s) as [|x m] eqn:E.
  - destruct s; [|discriminate E]; simpl; rewrite H2; reflexivity.
  - cbn [app trim_left].
    rewrite (avoids_In cut s x Hs) by (rewrite E; left; reflexivity).
    change (x :: m ++ [q2])%list with ((x :: m) ++ [q2])%list.
    rewrite rev_app_distr; cbn [rev app trim_left]; rewrite H2.
    change (rev m ++ [x])%list with (rev (x :: m)).
    rewrite trim_left_avoid, rev_involutive, <- E, string_of_list_ascii_of_string;
      [reflexivity|].
    intros c Hc; apply in_rev in Hc; apply (avoids_In cut s c Hs); rewrite E; exact Hc.
Qed.

Lemma get_after (u : string) c s : String.get (String.length u) (u ++ String c s) = Some c.
Proof. induction u as [|c' u IH]; simpl; [reflexivity | exact IH]. Qed.

Lemma length_append (u v : string) : String.length (u ++ v) = String.length u + String.length v.
Proof. induction u as [|c u IH]; simpl; [reflexivity | rewrite IH; reflexivity]. Qed.

(** A piece without ['<'] never sets the URL of the link. *)
Lemma parse_piece_url l piece0 :
  ~ In "<"%char (list_ascii_of_string piece0) -> LinkURL (parse_piece l piece0) = LinkURL l.
Proof.
  intros Hno; unfold parse_piece.
  destruct (trim [" "%char] piece0) as [|c rest] eqn:Hp; [reflexivity|].
  assert (Hc : Ascii.eqb c "<" = false).
  { apply Ascii.eqb_neq; intros ->; apply Hno.
    apply (trim_chars [" "%char]); rewrite Hp; left; reflexivity. }
  rewrite Hc; cbn [andb].
  destruct (parseParam (String c rest)) as [key val].
  destruct (String.eqb key ""); [reflexivity|].
  destruct (String.eqb (to_lower key) "rel"); reflexivity.
Qed.

Lemma fold_parse_piece_url pieces l :
  (forall p, In p pieces -> ~ In "<"%char (list_ascii_of_string p)) ->
  LinkURL (fold_left parse_piece pieces l) = LinkURL l.
Proof.
  revert l; induction pieces as [|p ps IH]; intros l H; simpl; [reflexivity|].
  rewrite IH; [apply parse_piece_url; apply H; left; reflexivity|].
  intros p' Hp'; apply H; right; exact Hp'.
Qed.

Lemma filter_none {A} (f : A -> bool) l : (forall x, In x l -> f x = false) -> filter f l = [].
Proof.
  induction l as [|x l IH]; intros H; simpl; [reflexivity|].
  rewrite (H x (or_introl eq_refl)); apply IH; intros y Hy; apply H; right; exact Hy.
Qed.

Lemma first_rel_app c l1 l2 :
  (forall l, In l l1 -> LinkURL l <> "") ->
  first_rel c (l1 ++ l2) =
  if String.eqb (first_rel c l1) "" then first_rel c l2 else first_rel c l1.
Proof.
  induction l1 as [|l l1 IH]; intros H; simpl; [reflexivity|].
  destruct (String.eqb (Rel l) c).
  - destruct (String.eqb (LinkURL l) "") eqn:E; [|reflexivity].
    apply String.eqb_eq in E; exfalso; exact (H l (or_introl eq_refl) E).
  - apply IH; intros l' Hl'; apply H; right; exact Hl'.
Qed.

(** [linkheader.Parse] of two headers joined by a comma is the
    concatenation of their links. *)
Lemma Parse_app h1 h2 : Parse (h1 ++ "," ++ h2) = (Parse h1 ++ Parse h2)%list.
Proof. unfold Parse; cbn [append]; rewrite split_app, map_app, filter_app; reflexivity. Qed.

(** Concatenating two link headers with a comma: [HeaderLink] returns the
    URL the first header gives for the relation, and looks in the second
    header only when the first gives none. *)
Theorem HeaderLink_concat h1 h2 c :
  HeaderLink (h1 ++ "," ++ h2) c =
  if String.eqb (HeaderLink h1 c) "" then HeaderLink h2 c else HeaderLink h1 c.
Proof.
  unfold HeaderLink; rewrite Parse_app; apply first_rel_app.
  intros l Hl; exact (Parse_url_nonempty h1 l Hl).
Qed.

(** A header without any ['<'] yields no link at all, so [HeaderLink]
    returns [""] for every relation. *)
Theorem HeaderLink_no_angle h :
  avoids ["<"%char] h = true -> Parse h = [] /\ forall c, HeaderLink h c = "".
Proof.
  intros Hav.
  assert (Hno : ~ In "<"%char (list_ascii_of_string h)).
  { intros Hin; pose proof (avoids_In _ _ _ Hav Hin) as E; discriminate E. }
  assert (HP : Parse h = []).
  { unfold Parse; apply filter_none; intros l Hl.
    apply in_map_iff in Hl as [chunk [<- Hchunk]].
    unfold parse_chunk; rewrite fold_parse_piece_url; [reflexivity|].
    intros p Hp Hin; apply Hno.
    apply (split_chars "," h chunk); [exact Hchunk|].
    exact (split_chars ";" chunk p _ Hp Hin). }
  split; [exact HP | intros c; unfold HeaderLink; rewrite HP; reflexivity].
Qed.

(** A double quote, as a character. *)
Definition dq_char : Ascii.ascii := "034"%char.

(** Splits hypotheses [In c (l1 ++ l2)] and [In c (x :: l)]. *)
Ltac in_cases H :=
  repeat match type of H with
  | _ \/ _ => destruct H as [H|H]
  | In _ (_ ++ _) => apply in_app_or in H
  | In _ (_ :: _) => destruct H as [H|H]
  | In _ [] => destruct H
  | False => destruct H
  end.

(** The piece [<u>] sets the URL of the link to [u]. *)
Lemma parse_piece_url_piece l u :
  avoids ["<"%char; ">"%char] u = true ->
  parse_piece l ("<" ++ u ++ ">") = mkLink u (Rel l).
Proof.
  intros Hu; unfold parse_piece.
  rewrite (trim_ends [" "%char] _ "<"%char (list_ascii_of_string u) ">"%char);
    [| cbn [append list_ascii_of_string]; rewrite chars_app; reflexivity
     | reflexivity | reflexivity].
  cbn [append].
  replace (String.length (String "<" (u ++ ">")) - 1) with (S (String.length u))
    by (cbn [String.length]; rewrite length_append; cbn [String.length]; lia).
  cbn [String.get]; rewrite get_after; cbn [Ascii.eqb Bool.eqb andb].
  rewrite trim_wrapped; [reflexivity | reflexivity | reflexivity | exact Hu].
Qed.

(** The piece [ rel="r"] sets the relation of the link to [r]. *)
Lemma parse_piece_rel_piece l r :
  avoids [dq_char] r = true ->
  parse_piece l (" rel=" ++ dq ++ r ++ dq) = mkLink (LinkURL l) r.
Proof.
  intros Hr; unfold parse_piece.
  cbn [append]; rewrite trim_cons_cut by reflexivity.
  rewrite (trim_ends [" "%char] _ "r"%char
             (["e"%char; "l"%char; "="%char; dq_char] ++ list_ascii_of_string r)%list dq_char);
    [| cbn [append list_ascii_of_string dq]; rewrite chars_app; reflexivity
     | reflexivity | reflexivity].
  cbn [Ascii.eqb Bool.eqb andb parseParam break_at append dq].
  pose proof (trim_wrapped [dq_char] dq_char dq_char r eq_refl eq_refl Hr) as Ht.
  unfold dq_char in Ht; unfold dq; rewrite Ht; reflexivity.
Qed.

Lemma avoids_eqb cut s x c :
  avoids cut s = true -> In x cut -> In c (list_ascii_of_string s) -> Ascii.eqb c x = false.
Proof.
  intros Hs Hx Hc; pose proof (avoids_In cut s c Hs Hc) as E.
  destruct (Ascii.eqb c x) eqn:Ex; [|reflexivity].
  assert (existsb (Ascii.eqb c) cut = true) by (apply existsb_exists; exists x; auto).
  unfold in_cutset in E; congruence.
Qed.

Lemma avoids_incl small big s : incl small big -> avoids big s = true -> avoids small s = true.
Proof.
  intros Hinc Hs; unfold avoids; apply forallb_forall; intros c Hc.
  destruct (in_cutset small c) eqn:E; [|reflexivity].
  unfold in_cutset in E; apply existsb_exists in E as [x [Hx Hcx]].
  rewrite (avoids_eqb big s x c Hs (Hinc x Hx) Hc) in Hcx; discriminate Hcx.
Qed.

(** Discharges [forall c, In c (chars s) -> Ascii.eqb c sep = false] for a
    string built from literals and strings that avoid [sep]. *)
Ltac no_sep Hu Hr :=
  let c := fresh "c" in let Hc := fresh "Hc" in
  intros c Hc; rewrite ?chars_app in Hc; cbn in Hc; in_cases Hc;
  first [ subst c; reflexivity
        | eapply avoids_eqb; [exact Hu | simpl; tauto | exact Hc]
        | eapply avoids_eqb; [exact Hr | simpl; tauto | exact Hc] ].

(** A header with one link [<u>; rel="r"] parses to the link [(u, r)], and
    [HeaderLink] returns [u] for the relation [r], when [u] is not empty
    and has no [,], [;], [<] or [>], and [r] has no [,], [;] or double
    quote. *)
Theorem HeaderLink_single u r :
  u <> "" ->
  avoids [","%char; ";"%char; "<"%char; ">"%char] u = true ->
  avoids [","%char; ";"%char; dq_char] r = true ->
  Parse ("<" ++ u ++ ">; rel=" ++ dq ++ r ++ dq) = [mkLink u r] /\
  HeaderLink ("<" ++ u ++ ">; rel=" ++ dq ++ r ++ dq) r = u.
Proof.
  intros Hne Hu Hr.
  assert (HS : "<" ++ u ++ ">; rel=" ++ dq ++ r ++ dq
               = ("<" ++ u ++ ">") ++ String ";" (" rel=" ++ dq ++ r ++ dq)).
  { cbn [append]; f_equal; rewrite <- append_assoc; reflexivity. }
  assert (HP : Parse ("<" ++ u ++ ">; rel=" ++ dq ++ r ++ dq) = [mkLink u r]).
  { unfold Parse.
    rewrite (split_avoid "," ("<" ++ u ++ ">; rel=" ++ dq ++ r ++ dq)) by no_sep Hu Hr.
    cbn [map]; unfold parse_chunk; rewrite HS, split_app.
    rewrite (split_avoid ";" ("<" ++ u ++ ">")) by no_sep Hu Hr.
    rewrite (split_avoid ";" (" rel=" ++ dq ++ r ++ dq)) by no_sep Hu Hr.
    cbn [app fold_left].
    rewrite parse_piece_url_piece
      by (eapply avoids_incl; [|exact Hu]; intros x Hx; simpl in *; tauto).
    rewrite parse_piece_rel_piece
      by (eapply avoids_incl; [|exact Hr]; intros x Hx; simpl in *; tauto).
    cbn [filter LinkURL].
    destruct (String.eqb u "") eqn:E; [apply String.eqb_eq in E; contradiction|].
    reflexivity. }
  split; [exact HP|].
  unfold HeaderLink; rewrite HP; cbn [first_rel Rel LinkURL].
  rewrite String.eqb_refl; reflexivity.
Qed.

End LinkHeaderFacts.

(** ** Fuel *)

Section Fuel.

Variable new_request : string -> string -> option error.
Variable read_hint : response -> hint.
Variable transport : nat -> send_result.
Variables url verb : string.
Variable headers : list (string * string).

Lemma current_loop_fuel fuel m a k e :
  fst (Current.loop new_request read_hint transport fuel url verb headers a k e)
    <> OutOfFuel ->
  Current.loop new_request read_hint transport (fuel + m) url verb headers a k e
    = Current.loop new_request read_hint transport fuel url verb headers a k e.
Proof.
  revert a k e; induction fuel as [|fuel IH]; intros a k e H.
  - cbn [Current.loop] in *; destruct (Nat.ltb a maxBackOffAttempts) eqn:Hlt;
      [exfalso; apply H; reflexivity|].
    destruct m; cbn [Current.loop Nat.add]; rewrite Hlt; reflexivity.
  - cbn [Current.loop Nat.add] in *; destruct (Nat.ltb a maxBackOffAttempts); [|reflexivity].
    destruct (Current.iteration new_request read_hint transport url verb headers a k)
      as [res ev|a' e' ev]; [reflexivity|].
    rewrite IH; [reflexivity|].
    destruct (Current.loop new_request read_hint transport fuel url verb headers a' (S k) e');
      exact H.
Qed.

(** The loop of the current [Request] always finishes within 8 iterations
    (each raises the count by at least one): it never runs out of the fuel
    [Request] gives it, and any larger bound on the iterations gives the
    same result and the same requests and sleeps. *)
Theorem Request_current_terminates m :
  fst (Current.loop new_request read_hint transport maxBackOffAttempts url verb headers
         0 0 None) <> OutOfFuel /\
  Current.loop new_request read_hint transport (maxBackOffAttempts + m) url verb headers
    0 0 None
  = Current.loop new_request read_hint transport maxBackOffAttempts url verb headers
      0 0 None.
Proof.
  assert (H := current_loop_not_out_of_fuel new_request read_hint transport
                 maxBackOffAttempts url verb headers 0 0 None ltac:(lia)).
  split; [exact H | apply current_loop_fuel; exact H].
Qed.

End Fuel.

(** ** Witnesses of the further properties *)

Definition resp404 : response := resp_with 404 "404 Not Found".

(** The first response is a 429 without a hint. *)
Lemma first_429_retry (b : send_result) :
  forall i, i < 1 -> retry_resp no_hint (first_then (SendOk resp429) b i).
Proof.
  intros i Hi; replace i with 0 by lia.
  exists resp429; split; [reflexivity | split; [left; reflexivity | intros e H; discriminate H]].
Qed.

Lemma Request_current_success_after_retries_witness :
  builds "GET" url_x = None /\ 1 < 4 /\
  first_then (SendOk resp429) (SendOk resp200) 1 = SendOk resp200 /\
  (200 <= StatusCode resp200 <= 299)%Z /\
  fst (Current.Request builds no_hint (first_then (SendOk resp429) (SendOk resp200))
         url_x "GET" []) = statusOK resp200 /\
  sends (snd (Current.Request builds no_hint (first_then (SendOk resp429) (SendOk resp200))
                url_x "GET" [])) = 2.
Proof.
  assert (Hb : builds "GET" url_x = None) by reflexivity.
  assert (Hj : 1 < 4) by lia.
  assert (Ht : first_then (SendOk resp429) (SendOk resp200) 1 = SendOk resp200)
    by reflexivity.
  assert (Hc : (200 <= StatusCode resp200 <= 299)%Z) by (simpl; lia).
  split; [exact Hb | split; [exact Hj | split; [exact Ht | split; [exact Hc |]]]].
  apply (Request_current_success_after_retries builds no_hint
           (first_then (SendOk resp429) (SendOk resp200)) url_x "GET" [] Hb 1 resp200
           Hj (first_429_retry (SendOk resp200)) Ht Hc).
Defined.

Lemma Request_legacy_success_after_retries_witness :
  builds "GET" url_x = None /\ 1 < 8 /\ 1 < 8 /\
  first_then (SendOk resp429) (SendOk resp200) 1 = SendOk resp200 /\
  fst (fst (Legacy.Request builds no_hint (first_then (SendOk resp429) (SendOk resp200))
              8 Legacy.version_init url_x "GET" [])) = Some (statusOK resp200) /\
  sends (snd (fst (Legacy.Request builds no_hint
                     (first_then (SendOk resp429) (SendOk resp200))
                     8 Legacy.version_init url_x "GET" []))) = 2.
Proof.
  assert (Hb : builds "GET" url_x = None) by reflexivity.
  assert (Hj : 1 < 8) by lia.
  assert (Ht : first_then (SendOk resp429) (SendOk resp200) 1 = SendOk resp200)
    by reflexivity.
  split; [exact Hb | split; [exact Hj | split; [exact Hj | split; [exact Ht |]]]].
  apply (Request_legacy_success_after_retries builds no_hint
           (first_then (SendOk resp429) (SendOk resp200)) url_x "GET" [] Hb 8
           Legacy.version_init 1 resp200 Hj Hj (first_429_retry (SendOk resp200)) Ht
           (or_introl eq_refl)).
Defined.

Lemma Request_not_found_after_retries_witness :
  builds "GET" url_x = None /\
  first_then (SendOk resp429) (SendOk resp404) 1 = SendOk resp404 /\
  StatusCode resp404 = 404%Z /\
  fst (Current.Request builds no_hint (first_then (SendOk resp429) (SendOk resp404))
         url_x "GET" []) = statusNotFound resp404 /\
  fst (fst (Legacy.Request builds no_hint (first_then (SendOk resp429) (SendOk resp404))
              8 Legacy.version_init url_x "GET" [])) = Some (statusNotFound resp404).
Proof.
  assert (Hb : builds "GET" url_x = None) by reflexivity.
  assert (Ht : first_then (SendOk resp429) (SendOk resp404) 1 = SendOk resp404)
    by reflexivity.
  assert (Hc : StatusCode resp404 = 404%Z) by reflexivity.
  pose proof (Request_not_found_after_retries builds no_hint
                (first_then (SendOk resp429) (SendOk resp404)) url_x "GET" [] Hb 8
                Legacy.version_init 1 resp404 (first_429_retry (SendOk resp404)) Ht Hc)
    as [Hcur Hleg].
  split; [exact Hb | split; [exact Ht | split; [exact Hc | split]]].
  - exact (proj1 (Hcur ltac:(lia))).
  - exact (proj1 (Hleg ltac:(lia) ltac:(lia))).
Defined.

Lemma Request_fatal_after_retries_witness :
  builds "GET" url_x = None /\
  fatal_at no_hint (first_then (SendOk resp429) (SendErr "connection refused") 1)
    "connection refused" /\
  fst (Current.Request builds no_hint
         (first_then (SendOk resp429) (SendErr "connection refused")) url_x "GET" [])
    = errEnvelope "connection refused" url_x /\
  fst (fst (Legacy.Request builds no_hint
              (first_then (SendOk resp429) (SendErr "connection refused"))
              8 Legacy.version_init url_x "GET" []))
    = Some (errEnvelope "connection refused" url_x).
Proof.
  assert (Hb : builds "GET" url_x = None) by reflexivity.
  assert (Hf : fatal_at no_hint (first_then (SendOk resp429) (SendErr "connection refused") 1)
                 "connection refused") by (left; reflexivity).
  pose proof (Request_fatal_after_retries builds no_hint
                (first_then (SendOk resp429) (SendErr "connection refused")) url_x "GET" []
                Hb 8 Legacy.version_init 1 "connection refused"
                (first_429_retry (SendErr "connection refused")) Hf) as [Hcur Hleg].
  split; [exact Hb | split; [exact Hf | split]].
  - exact (proj1 (Hcur ltac:(lia))).
  - exact (proj1 (Hleg ltac:(lia) ltac:(lia))).
Defined.

Lemma always_429_backoff : all_backoff no_hint (always (SendOk resp429)).
Proof.
  intros k; exists resp429; split; [reflexivity | split; [left; reflexivity | reflexivity]].
Qed.

Lemma Request_backoff_schedule_witness :
  builds "GET" url_x = None /\ all_backoff no_hint (always (SendOk resp429)) /\ 8 <= 8 /\
  backoff_sleeps (snd (Current.Request builds no_hint (always (SendOk resp429)) url_x
                         "GET" [])) = [0; 2; 4; 6] /\
  backoff_sleeps (snd (fst (Legacy.Request builds no_hint (always (SendOk resp429)) 8
                              Legacy.version_init url_x "GET" [])))
    = [0; 1; 2; 3; 4; 5; 6; 7].
Proof.
  assert (Hb : builds "GET" url_x = None) by reflexivity.
  assert (Hf : 8 <= 8) by lia.
  pose proof (Request_backoff_schedule builds no_hint (always (SendOk resp429)) url_x "GET"
                [] Hb always_429_backoff 8 Legacy.version_init Hf) as [H1 [_ [H2 _]]].
  split; [exact Hb | split; [exact always_429_backoff | split; [exact Hf | split]]].
  - exact H1.
  - exact H2.
Defined.

Lemma HeaderLink_no_angle_witness :
  avoids ["<"%char] ("rel=" ++ dq ++ "next" ++ dq) = true /\
  HeaderLink ("rel=" ++ dq ++ "next" ++ dq) "next" = "".
Proof.
  assert (H : avoids ["<"%char] ("rel=" ++ dq ++ "next" ++ dq) = true) by reflexivity.
  split; [exact H | apply (proj2 (HeaderLink_no_angle _ H))].
Defined.

Lemma HeaderLink_single_witness :
  "https://x/2" <> "" /\
  avoids [","%char; ";"%char; "<"%char; ">"%char] "https://x/2" = true /\
  avoids [","%char; ";"%char; dq_char] "next" = true /\
  HeaderLink ("<" ++ "https://x/2" ++ ">; rel=" ++ dq ++ "next" ++ dq) "next"
    = "https://x/2".
Proof.
  assert (Hne : "https://x/2" <> "") by discriminate.
  assert (Hu : avoids [","%char; ";"%char; "<"%char; ">"%char] "https://x/2" = true)
    by reflexivity.
  assert (Hr : avoids [","%char; ";"%char; dq_char] "next" = true) by reflexivity.
  split; [exact Hne | split; [exact Hu | split; [exact Hr |]]].
  exact (proj2 (HeaderLink_single "https://x/2" "next" Hne Hu Hr)).
Defined.
